(** * Broker recommendations: the extraction pipeline and its request handlers

    A shallow embedding of [src/crawler.py], [src/handlers.py] and
    [src/models.py], and the properties of the specification checked on it.

    Modelling conventions.
    - A Python [str] is a [string]: a sequence of 8-bit characters.  Case
      conversion, whitespace, digits and word characters are Python's on the
      ASCII range; a character above 127 stands for a symbol that has no case
      and is neither a letter, a digit nor whitespace (the dash of the
      end-to-end scenario is such a symbol).
    - A Python [float] that the program obtains with [float(...)] from a
      decimal numeral is the exact rational value of the numeral ([Q]); binary
      rounding, overflow and NaN are outside the model.  Every comparison the
      program makes is against 0, 10, 50, 100, 0.5, 20000 or 50000 or between
      two parsed values, and rounding to nearest is monotone.
    - [re] is modelled by a backtracking matcher with Python's priorities
      (leftmost match, alternatives in order, greedy and lazy repetition); the
      patterns are the source's pattern strings, parsed by [re_compile].
    - BeautifulSoup's parse tree is a [node]; an element is addressed by its
      path from the root, which gives [parent] and the siblings.
    - The network, the clock and the construction of the crawler are events of
      a small free monad [io]; logging is left out. *)

From Stdlib Require Import ZArith QArith Qminmax Qabs Qround Ascii String List Bool Lia Sorting.Sorted Sorting.Permutation.
From stdpp Require Import base tactics option list gmap sets strings.

Set Warnings "-register-all".
Local Open Scope Z_scope.
Local Open Scope nat_scope.

(* ===================================================================== *)
(** * Python strings *)
(* ===================================================================== *)

Module Py.

Definition code (c : ascii) : nat := nat_of_ascii c.

Definition between (lo hi : nat) (c : ascii) : bool :=
  Nat.leb lo (code c) && Nat.leb (code c) hi.

Definition is_upper (c : ascii) : bool := between 65 90 c.
Definition is_lower (c : ascii) : bool := between 97 122 c.
Definition is_alpha (c : ascii) : bool := is_upper c || is_lower c.
Definition is_digit (c : ascii) : bool := between 48 57 c.
(** [str.isspace] on the ASCII range: tab to carriage return, the four
    separators 28 to 31, and the space. *)
Definition is_space (c : ascii) : bool :=
  between 9 13 c || between 28 32 c.
(** [\w] on the ASCII range. *)
Definition is_word (c : ascii) : bool :=
  is_alpha c || is_digit c || Nat.eqb (code c) 95.

Definition to_upper (c : ascii) : ascii :=
  if is_lower c then ascii_of_nat (code c - 32) else c.
Definition to_lower (c : ascii) : ascii :=
  if is_upper c then ascii_of_nat (code c + 32) else c.

Fixpoint upper (s : string) : string :=
  match s with
  | EmptyString => EmptyString
  | String c s' => String (to_upper c) (upper s')
  end.

Fixpoint lower (s : string) : string :=
  match s with
  | EmptyString => EmptyString
  | String c s' => String (to_lower c) (lower s')
  end.

Definition len (s : string) : nat := String.length s.

Definition eqs (a b : string) : bool := String.eqb a b.

(** [s.startswith(p)] *)
Fixpoint startswith (p s : string) : bool :=
  match p, s with
  | EmptyString, _ => true
  | String a p', String b s' => Ascii.eqb a b && startswith p' s'
  | String _ _, EmptyString => false
  end.

(** [needle in hay] *)
Fixpoint contains (needle hay : string) : bool :=
  startswith needle hay ||
  match hay with
  | EmptyString => false
  | String _ hay' => contains needle hay'
  end.

(** [x in xs] for a list of strings *)
Definition in_list (x : string) (xs : list string) : bool :=
  existsb (eqs x) xs.

(** [any(word in text for word in words)] *)
Definition any_in (words : list string) (text : string) : bool :=
  existsb (fun w => contains w text) words.

Fixpoint drop (n : nat) (s : string) : string :=
  match n, s with
  | O, _ => s
  | S n', String _ s' => drop n' s'
  | S _, EmptyString => EmptyString
  end.

Fixpoint take (n : nat) (s : string) : string :=
  match n, s with
  | O, _ => EmptyString
  | S n', String c s' => String c (take n' s')
  | S _, EmptyString => EmptyString
  end.

Fixpoint lstrip (s : string) : string :=
  match s with
  | String c s' => if is_space c then lstrip s' else s
  | EmptyString => EmptyString
  end.

Fixpoint rstrip (s : string) : string :=
  match s with
  | EmptyString => EmptyString
  | String c s' =>
      match rstrip s' with
      | EmptyString => if is_space c then EmptyString else String c EmptyString
      | r => String c r
      end
  end.

(** [s.strip()] *)
Definition strip (s : string) : string := rstrip (lstrip s).

(** [s.split()]: the maximal runs of non-whitespace characters. *)
Fixpoint split_ws_aux (cur : string) (s : string) : list string :=
  match s with
  | EmptyString =>
      match cur with EmptyString => [] | _ => [cur] end
  | String c s' =>
      if is_space c
      then match cur with
           | EmptyString => split_ws_aux EmptyString s'
           | _ => cur :: split_ws_aux EmptyString s'
           end
      else split_ws_aux (cur +:+ String c EmptyString) s'
  end.
Definition split (s : string) : list string := split_ws_aux EmptyString s.

(** [s.replace(old, new)] for a non-empty [old]: leftmost, non-overlapping. *)
Fixpoint replace_aux (fuel : nat) (old new s : string) : string :=
  match fuel with
  | O => s
  | S f =>
      match s with
      | EmptyString => EmptyString
      | String c s' =>
          if startswith old s
          then new +:+ replace_aux f old new (drop (len old) s)
          else String c (replace_aux f old new s')
      end
  end.
Definition replace (old new s : string) : string :=
  replace_aux (S (len s)) old new s.

(** [sep.join(xs)] *)
Fixpoint join (sep : string) (xs : list string) : string :=
  match xs with
  | [] => EmptyString
  | [x] => x
  | x :: xs' => x +:+ sep +:+ join sep xs'
  end.

Fixpoint all_chars (p : ascii -> bool) (s : string) : bool :=
  match s with
  | EmptyString => true
  | String c s' => p c && all_chars p s'
  end.

(** [s.isdigit()]: non-empty and only digits. *)
Definition isdigit (s : string) : bool :=
  match s with
  | EmptyString => false
  | _ => all_chars is_digit s
  end.

(** ** [float(s)] on the numerals that reach it

    Every call of [float] in the parser follows a check that leaves only
    digits, commas (removed before the call) and dots.  On such strings
    [float] accepts digits with at most one dot and at least one digit, and
    raises [ValueError] otherwise ([None]). *)

Fixpoint digits_value (acc : N) (s : string) : N :=
  match s with
  | EmptyString => acc
  | String c s' => digits_value (acc * 10 + N.of_nat (code c - 48))%N s'
  end.

Fixpoint split_dot (s : string) : string * option string :=
  match s with
  | EmptyString => (EmptyString, None)
  | String c s' =>
      if Ascii.eqb c "." then (EmptyString, Some s')
      else let '(a, b) := split_dot s' in (String c a, b)
  end.

Definition decimal (ip fp : string) : Q :=
  Qred (Z.of_N (digits_value 0 (ip +:+ fp)) # Z.to_pos (10 ^ Z.of_nat (len fp))).

Definition float (s : string) : option Q :=
  let '(ip, ofp) := split_dot s in
  let fp := match ofp with Some f => f | None => EmptyString end in
  if all_chars is_digit ip && all_chars is_digit fp
     && negb (eqs (ip +:+ fp) EmptyString)
  then Some (decimal ip fp)
  else None.

End Py.

(* ===================================================================== *)
(** * Regular expressions: the part of [re] the program uses *)
(* ===================================================================== *)

Module Re.
Import Py.

(** A character set: what a single pattern character or a bracket class
    accepts. *)
Inductive cset : Type :=
| CChr (c : ascii)
| CRng (lo hi : ascii)
| CDigit
| CSpace
| CAny
| CNone
| COr (a b : cset)
| CNot (a : cset).

Inductive regex : Type :=
| REps
| RSet (cs : cset)
| RSeq (a b : regex)
| RAlt (a b : regex)
| RRep (greedy : bool) (lo : nat) (hi : option nat) (a : regex)
| RGrp (i : nat) (a : regex)
| RBol
| REol
| RWordB.

Fixpoint cset_raw (cs : cset) (c : ascii) : bool :=
  match cs with
  | CChr x => Ascii.eqb c x
  | CRng lo hi => between (code lo) (code hi) c
  | CDigit => is_digit c
  | CSpace => is_space c
  | CAny => negb (Nat.eqb (code c) 10)
  | CNone => false
  | COr a b => cset_raw a c || cset_raw b c
  | CNot a => negb (cset_raw a c)
  end.

(** With [re.I] a character is accepted when its lower-case or its upper-case
    form is. *)
Definition cset_mem (ci : bool) (cs : cset) (c : ascii) : bool :=
  if ci then cset_raw cs (to_lower c) || cset_raw cs (to_upper c)
  else cset_raw cs c.

(** The matcher's position: the character before it (for [^] and [\b]), the
    text still to read and the groups captured so far, latest first. *)
Record mst : Type := MSt {
  prev : option ascii;
  rest : string;
  caps : list (nat * string)
}.

Definition word_before (st : mst) : bool :=
  match prev st with Some c => is_word c | None => false end.
Definition word_after (st : mst) : bool :=
  match rest st with String c _ => is_word c | EmptyString => false end.

(** [$] without [re.M]: the end of the text, or just before a final newline. *)
Definition at_eol (st : mst) : bool :=
  match rest st with
  | EmptyString => true
  | String c EmptyString => Nat.eqb (code c) 10
  | _ => false
  end.

Notation "a <|> b" :=
  (match a with Some x => Some x | None => b end)
  (at level 61, left associativity, only parsing).

(** A repetition [a{lo,hi}] on a budget of [fuel] more turns after [cnt]
    turns: a greedy one tries its body first, a lazy one the continuation
    first. *)
Fixpoint rep_loop (body : mst -> (mst -> option mst) -> option mst)
  (g : bool) (lo : nat) (k : mst -> option mst) (fuel cnt : nat) (st : mst)
  {struct fuel} : option mst :=
  match fuel with
  | O => if Nat.leb lo cnt then k st else None
  | S f =>
      if g
      then body st (fun st' => rep_loop body g lo k f (S cnt) st')
           <|> (if Nat.leb lo cnt then k st else None)
      else (if Nat.leb lo cnt then k st else None)
           <|> body st (fun st' => rep_loop body g lo k f (S cnt) st')
  end.

(** Backtracking in continuation-passing style.  An unbounded repetition
    runs on a budget that no text can exhaust, since every repeated body of
    the program's patterns reads at least one character. *)
Fixpoint m (ci : bool) (r : regex) (st : mst) (k : mst -> option mst)
  {struct r} : option mst :=
  match r with
  | REps => k st
  | RSet cs =>
      match rest st with
      | String c s' =>
          if cset_mem ci cs c then k (MSt (Some c) s' (caps st)) else None
      | EmptyString => None
      end
  | RSeq a b => m ci a st (fun st' => m ci b st' k)
  | RAlt a b => m ci a st k <|> m ci b st k
  | RRep g lo hi a =>
      rep_loop (m ci a) g lo k
        (match hi with Some h => h | None => lo + S (len (rest st)) end) 0 st
  | RGrp i a =>
      m ci a st (fun st' =>
        k (MSt (prev st') (rest st')
               ((i, take (len (rest st) - len (rest st')) (rest st)) :: caps st')))
  | RBol => match prev st with None => k st | Some _ => None end
  | REol => if at_eol st then k st else None
  | RWordB => if xorb (word_before st) (word_after st) then k st else None
  end.

(** A match object: [start()], [end()], [group(0)] and the groups. *)
Record mres : Type := MRes {
  m_start : nat;
  m_end : nat;
  m_whole : string;
  m_caps : list (nat * string)
}.

Fixpoint assoc (i : nat) (l : list (nat * string)) : option string :=
  match l with
  | [] => None
  | (j, s) :: l' => if Nat.eqb i j then Some s else assoc i l'
  end.

(** [mo.group(i)]; a group that took no part in the match reads as empty, as
    in the tuples of [re.findall]. *)
Definition group (i : nat) (r : mres) : string :=
  match assoc i (m_caps r) with Some s => s | None => EmptyString end.

Definition match_here (ci : bool) (r : regex) (p : option ascii) (s : string)
  (pos : nat) : option mres :=
  match m ci r (MSt p s []) Some with
  | Some st =>
      let n := len s - len (rest st) in
      Some (MRes pos (pos + n) (take n s) (caps st))
  | None => None
  end.

Fixpoint search_at (ci : bool) (r : regex) (p : option ascii) (s : string)
  (pos : nat) : option mres :=
  match match_here ci r p s pos with
  | Some res => Some res
  | None =>
      match s with
      | EmptyString => None
      | String c s' => search_at ci r (Some c) s' (S pos)
      end
  end.

(** [re.search(r, s)] and [re.match(r, s)] *)
Definition search (ci : bool) (r : regex) (s : string) : option mres :=
  search_at ci r None s 0.
Definition rmatch (ci : bool) (r : regex) (s : string) : option mres :=
  match_here ci r None s 0.

Definition found (o : option mres) : bool :=
  match o with Some _ => true | None => false end.

Fixpoint last_char (p : option ascii) (s : string) : option ascii :=
  match s with
  | EmptyString => p
  | String c s' => last_char (Some c) s'
  end.

(** The successive non-overlapping matches, left to right.  After an empty
    match the scan moves on by one character. *)
Fixpoint matches_aux (fuel : nat) (ci : bool) (r : regex) (p : option ascii)
  (s : string) : list mres :=
  match fuel with
  | O => []
  | S f =>
      match search_at ci r p s 0 with
      | None => []
      | Some res =>
          let e := m_end res in
          if Nat.eqb e (m_start res)
          then res ::
               match drop e s with
               | EmptyString => []
               | String c s' => matches_aux f ci r (Some c) s'
               end
          else res :: matches_aux f ci r (last_char p (take e s)) (drop e s)
      end
  end.

(** [re.finditer(r, s)]; [re.findall] reads the groups of these matches. *)
Definition finditer (ci : bool) (r : regex) (s : string) : list mres :=
  matches_aux (S (len s)) ci r None s.

(** [re.findall(r, s)] for a pattern with no group or one group. *)
Definition findall0 (ci : bool) (r : regex) (s : string) : list string :=
  map m_whole (finditer ci r s).
Definition findall1 (ci : bool) (r : regex) (s : string) : list string :=
  map (group 1) (finditer ci r s).
(** [re.findall(r, s)] for a pattern with two groups. *)
Definition findall2 (ci : bool) (r : regex) (s : string)
  : list (string * string) :=
  map (fun x => (group 1 x, group 2 x)) (finditer ci r s).

(** [re.sub(r, repl, s)] for a replacement without group references. *)
Fixpoint sub_aux (fuel : nat) (ci : bool) (r : regex) (repl : string)
  (p : option ascii) (s : string) : string :=
  match fuel with
  | O => s
  | S f =>
      match search_at ci r p s 0 with
      | None => s
      | Some res =>
          let e := m_end res in
          take (m_start res) s +:+ repl +:+
          (if Nat.eqb e (m_start res)
           then match drop e s with
                | EmptyString => EmptyString
                | String c s' => String c (sub_aux f ci r repl (Some c) s')
                end
           else sub_aux f ci r repl (last_char p (take e s)) (drop e s))
      end
  end.
Definition sub (ci : bool) (r : regex) (repl s : string) : string :=
  sub_aux (S (len s)) ci r repl None s.

(** ** Reading a pattern string *)

Definition pres : Type := option (regex * nat * string).

Fixpoint p_digits (acc : nat) (any : bool) (s : string) : option (nat * string) :=
  match s with
  | String c s' =>
      if is_digit c then p_digits (acc * 10 + (code c - 48)) true s'
      else if any then Some (acc, s) else None
  | EmptyString => if any then Some (acc, s) else None
  end.

Definition p_lazy (s : string) : bool * string :=
  match s with
  | String "?" s' => (false, s')
  | _ => (true, s)
  end.

(** The quantifier after an atom, if there is one. *)
Definition p_quant (a : regex) (s : string) : regex * string :=
  match s with
  | String "*" s' => let '(g, s'') := p_lazy s' in (RRep g 0 None a, s'')
  | String "+" s' => let '(g, s'') := p_lazy s' in (RRep g 1 None a, s'')
  | String "?" s' => let '(g, s'') := p_lazy s' in (RRep g 0 (Some 1) a, s'')
  | String "{" s' =>
      match p_digits 0 false s' with
      | Some (n, String "}" s2) =>
          let '(g, s3) := p_lazy s2 in (RRep g n (Some n) a, s3)
      | Some (n, String "," s2) =>
          match p_digits 0 false s2 with
          | Some (n2, String "}" s3) =>
              let '(g, s4) := p_lazy s3 in (RRep g n (Some n2) a, s4)
          | _ => (a, s)
          end
      | _ => (a, s)
      end
  | _ => (a, s)
  end.

Definition escape_set (c : ascii) : cset :=
  if Ascii.eqb c "s" then CSpace
  else if Ascii.eqb c "d" then CDigit
  else CChr c.

(** One member of a bracket class: a category, a character or a range. *)
Definition p_class_item (s : string) : option (cset * string) :=
  let one (s : string) : option (cset * string) :=
    match s with
    | String "\" (String c s') => Some (escape_set c, s')
    | String c s' => Some (CChr c, s')
    | EmptyString => None
    end in
  match one s with
  | Some (CChr lo, String "-" s1) =>
      match s1 with
      | String "]" _ => Some (CChr lo, String "-" s1)
      | _ =>
          match one s1 with
          | Some (CChr hi, s2) => Some (CRng lo hi, s2)
          | _ => None
          end
      end
  | x => x
  end.

Fixpoint p_class (fuel : nat) (s : string) : option (cset * string) :=
  match fuel with
  | O => None
  | S f =>
      match s with
      | String "]" s' => Some (CNone, s')
      | _ =>
          match p_class_item s with
          | Some (i, s1) =>
              match p_class f s1 with
              | Some (cs, s2) => Some (COr i cs, s2)
              | None => None
              end
          | None => None
          end
      end
  end.

(** An atom; [sub] reads the alternation inside parentheses, [g] counts the
    capturing groups opened so far. *)
Definition p_atom (sub : nat -> string -> pres) (g : nat) (s : string) : pres :=
  match s with
  | EmptyString => None
  | String "(" (String "?" (String ":" s')) =>
      match sub g s' with
      | Some (r, g', String ")" s'') => Some (r, g', s'')
      | _ => None
      end
  | String "(" s' =>
      match sub (S g) s' with
      | Some (r, g', String ")" s'') => Some (RGrp (S g) r, g', s'')
      | _ => None
      end
  | String "[" (String "^" s') =>
      match p_class (S (len s')) s' with
      | Some (cs, s'') => Some (RSet (CNot cs), g, s'')
      | None => None
      end
  | String "[" s' =>
      match p_class (S (len s')) s' with
      | Some (cs, s'') => Some (RSet cs, g, s'')
      | None => None
      end
  | String "\" (String c s') =>
      if Ascii.eqb c "b" then Some (RWordB, g, s')
      else Some (RSet (escape_set c), g, s')
  | String "." s' => Some (RSet CAny, g, s')
  | String "^" s' => Some (RBol, g, s')
  | String "$" s' => Some (REol, g, s')
  | String c s' => Some (RSet (CChr c), g, s')
  end.

Fixpoint p_seq (sub : nat -> string -> pres) (fuel : nat) (g : nat)
  (s : string) : pres :=
  match fuel with
  | O => None
  | S f =>
      match s with
      | EmptyString => Some (REps, g, s)
      | String ")" _ => Some (REps, g, s)
      | String "|" _ => Some (REps, g, s)
      | _ =>
          match p_atom sub g s with
          | Some (a, g1, s1) =>
              let '(a', s2) := p_quant a s1 in
              match p_seq sub f g1 s2 with
              | Some (REps, g2, s3) => Some (a', g2, s3)
              | Some (r, g2, s3) => Some (RSeq a' r, g2, s3)
              | None => None
              end
          | None => None
          end
      end
  end.

Fixpoint p_alt (fuel : nat) (g : nat) (s : string) : pres :=
  match fuel with
  | O => None
  | S f =>
      match p_seq (p_alt f) (S (len s)) g s with
      | Some (r, g1, String "|" s1) =>
          match p_alt f g1 s1 with
          | Some (r2, g2, s2) => Some (RAlt r r2, g2, s2)
          | None => None
          end
      | x => x
      end
  end.

(** [re.compile(pattern)]; a pattern outside the supported syntax compiles to
    the expression that matches nothing, and [compiles] tells the two apart. *)
Definition parse (pattern : string) : option regex :=
  match p_alt (S (len pattern)) 0 pattern with
  | Some (r, _, EmptyString) => Some r
  | _ => None
  end.
Definition re_compile (pattern : string) : regex :=
  match parse pattern with Some r => r | None => RSet CNone end.
Definition compiles (pattern : string) : bool :=
  match parse pattern with Some _ => true | None => false end.

End Re.

(* ===================================================================== *)
(** * [src/models.py] *)
(* ===================================================================== *)

(** A [datetime]: the reading of the clock. *)
Definition datetime : Type := nat.

Record BrokerRecommendation : Type := mkRec {
  broker_name : string;
  company_name : string;
  recommendation : string;
  target_price : Q;
  current_price : Q;
  reporting_date : datetime
}.

(* ===================================================================== *)
(** * Effects: the network, the clock, the crawler object *)
(* ===================================================================== *)

(** What a call that may raise does: it returns, or raises an [Exception]
    with a message. *)
Inductive outcome (A : Type) : Type :=
| Returned (a : A)
| Raised (msg : string).
Arguments Returned {A} a.
Arguments Raised {A} msg.

(** The operations whose answer the program does not compute:
    - [FetchCurrentPrice c] is [self._fetch_current_price(c)], three network
      lookups behind a catch-all; it returns a price, 0.0 for "not found";
    - [Now] is [datetime.now()];
    - [NewCrawler] is [MoneyControlCrawler()], which builds a session object;
    - [Selenium] and [Requests] are the two acquisition strategies
      [_get_recommendations_with_selenium] and
      [_get_recommendations_with_requests]: a browser session and HTTP
      requests, each giving a list of records or raising. *)
Inductive event : Type -> Type :=
| FetchCurrentPrice (company : string) : event Q
| Now : event datetime
| NewCrawler : event unit
| Selenium : event (outcome (list BrokerRecommendation))
| Requests : event (outcome (list BrokerRecommendation)).

(** A program over these operations: a result, or an operation and what to
    do with its answer. *)
Inductive io (A : Type) : Type :=
| Ret (a : A)
| Vis (X : Type) (e : event X) (k : X -> io A).
Arguments Ret {A} a.
Arguments Vis {A X} e k.

Fixpoint io_bind {A B : Type} (f : A -> io B) (p : io A) : io B :=
  match p with
  | Ret a => f a
  | Vis e k => Vis e (fun x => io_bind f (k x))
  end.

Global Instance io_ret : MRet io := fun A a => Ret a.
Global Instance io_mbind : MBind io := fun A B f p => io_bind f p.

Definition trigger {X : Type} (e : event X) : io X := Vis e Ret.

(** An environment answers every operation and moves on. *)
Definition world (W : Type) : Type := forall X : Type, event X -> W -> X * W.

Fixpoint run {W A : Type} (h : world W) (p : io A) (w : W) : A * W :=
  match p with
  | Ret a => (a, w)
  | Vis e k => let '(x, w') := h _ e w in run h (k x) w'
  end.

(** The operations a program performs in an environment, in order. *)
Inductive call : Type :=
| Call (X : Type) (e : event X).
Arguments Call {X} e.

Fixpoint calls {W A : Type} (h : world W) (p : io A) (w : W) : list call :=
  match p with
  | Ret _ => []
  | Vis e k => let '(x, w') := h _ e w in Call e :: calls h (k x) w'
  end.

(* ===================================================================== *)
(** * BeautifulSoup: the parse tree and the queries the crawler makes *)
(* ===================================================================== *)

Module Soup.
Import Py Re.

(** The tree [BeautifulSoup(html, "html.parser")] builds: strings and tags
    with their attributes in document order.  The root is the soup object. *)
Inductive node : Type :=
| NavigableString (s : string)
| Tag (name : string) (attrs : list (string * string)) (contents : list node).

(** An element of a tree: the tree and the path of child indexes to it. *)
Record elem : Type := Elem { root : node; path : list nat }.

Fixpoint at_path (n : node) (p : list nat) : option node :=
  match p with
  | [] => Some n
  | i :: p' =>
      match n with
      | NavigableString _ => None
      | Tag _ _ cs =>
          match nth_error cs i with
          | Some c => at_path c p'
          | None => None
          end
      end
  end.

(** The node of an element; an address outside the tree reads as an empty
    string. *)
Definition node_of (e : elem) : node :=
  match at_path (root e) (path e) with
  | Some n => n
  | None => NavigableString EmptyString
  end.

Definition is_tag (n : node) : bool :=
  match n with Tag _ _ _ => true | NavigableString _ => false end.

Definition tag_name (n : node) : string :=
  match n with Tag nm _ _ => nm | NavigableString _ => EmptyString end.

Definition children (n : node) : list node :=
  match n with Tag _ _ cs => cs | NavigableString _ => [] end.

(** [e.parent]; the soup object has none. *)
Definition parent (e : elem) : option elem :=
  match path e with
  | [] => None
  | _ => Some (Elem (root e) (removelast (path e)))
  end.

Fixpoint number_from {A : Type} (i : nat) (l : list A) : list (nat * A) :=
  match l with
  | [] => []
  | x :: l' => (i, x) :: number_from (S i) l'
  end.

(** The descendants of a node in document order, with their paths from it. *)
Fixpoint descendants (n : node) : list (list nat * node) :=
  match n with
  | NavigableString _ => []
  | Tag _ _ cs =>
      (fix go (i : nat) (cs : list node) : list (list nat * node) :=
         match cs with
         | [] => []
         | c :: cs' =>
             ([i], c)
             :: map (fun pd => (i :: fst pd, snd pd)) (descendants c)
             ++ go (S i) cs'
         end) 0 cs
  end.

(** [e.find_all(...)]: the descendant tags that pass the filter. *)
Definition find_all (f : node -> bool) (e : elem) : list elem :=
  map (fun pd => Elem (root e) (path e ++ fst pd))
      (filter (fun pd => is_tag (snd pd) && f (snd pd)) (descendants (node_of e))).

(** [e.find_all(..., recursive=False)]: the child tags that pass the filter. *)
Definition find_children (f : node -> bool) (e : elem) : list elem :=
  map (fun ic => Elem (root e) (path e ++ [fst ic]))
      (filter (fun ic => is_tag (snd ic) && f (snd ic))
              (number_from 0 (children (node_of e)))).

(** [soup.find_all(string=f)]: the strings of the tree that pass the filter. *)
Definition find_strings (f : string -> bool) (e : elem) : list string :=
  flat_map (fun pd => match snd pd with
                      | NavigableString s => if f s then [s] else []
                      | Tag _ _ _ => []
                      end)
           (descendants (node_of e)).

(** All the strings below a node, in document order. *)
Fixpoint strings (n : node) : list string :=
  match n with
  | NavigableString s => [s]
  | Tag _ _ cs => flat_map strings cs
  end.

(** [e.get_text()] *)
Definition get_text (n : node) : string := join EmptyString (strings n).

(** [e.get_text(strip=True)]: every string stripped, the empty ones dropped. *)
Definition get_text_strip (n : node) : string :=
  join EmptyString
       (filter (fun s => negb (eqs s EmptyString)) (map strip (strings n))).

(** [e.string]: the single string of a tag, through single children. *)
Fixpoint dot_string (n : node) : option string :=
  match n with
  | NavigableString s => Some s
  | Tag _ _ [c] => dot_string c
  | Tag _ _ _ => None
  end.

Fixpoint lookup_attr (k : string) (l : list (string * string)) : option string :=
  match l with
  | [] => None
  | (k', v) :: l' => if eqs k k' then Some v else lookup_attr k l'
  end.

(** [e.get(k)] *)
Definition get (k : string) (n : node) : option string :=
  match n with
  | Tag _ a _ => lookup_attr k a
  | NavigableString _ => None
  end.

(** [e.get(k, default)] with the empty string as default *)
Definition get_or_empty (k : string) (n : node) : string :=
  match get k n with Some v => v | None => EmptyString end.

(** [e.get("class", [])]: the class attribute is a list of names. *)
Definition classes (n : node) : list string :=
  match get "class" n with Some v => split v | None => [] end.

(** Filters of [find_all]. *)
Definition named (names : list string) (n : node) : bool :=
  in_list (tag_name n) names.
Definition has_attr (k : string) (n : node) : bool :=
  match get k n with Some _ => true | None => false end.
Definition attr_is (k v : string) (n : node) : bool :=
  match get k n with Some x => eqs x v | None => false end.
Definition attr_matches (ci : bool) (pattern k : string) (n : node) : bool :=
  match get k n with
  | Some v => found (search ci (re_compile pattern) v)
  | None => false
  end.
(** [class_=re.compile(p)]: some class name matches, or the whole list does. *)
Definition class_matches (ci : bool) (pattern : string) (n : node) : bool :=
  match get "class" n with
  | Some _ =>
      existsb (fun c => found (search ci (re_compile pattern) c)) (classes n)
      || found (search ci (re_compile pattern) (join " " (classes n)))
  | None => false
  end.
(** [string=re.compile(p)] on tags: the tag's [.string] matches. *)
Definition string_matches (ci : bool) (pattern : string) (n : node) : bool :=
  match dot_string n with
  | Some s => found (search ci (re_compile pattern) s)
  | None => false
  end.

(** The sibling tags after and before an element, nearest first:
    [e.find_next_siblings()] and [e.find_previous_siblings()]. *)
Definition sibling_nodes (e : elem) : list node * list node :=
  match parent e with
  | Some p =>
      let cs := children (node_of p) in
      let i := List.last (path e) 0 in
      (filter is_tag (skipn (S i) cs), filter is_tag (rev (firstn i cs)))
  | None => ([], [])
  end.
Definition find_next_siblings (e : elem) : list node := fst (sibling_nodes e).
Definition find_previous_siblings (e : elem) : list node := snd (sibling_nodes e).

(** [str(e)]: the markup of a node.  Attribute values are written between
    double quotes; the elements of HTML that have no content are written
    [<br/>]. *)
Definition dquote : string := String (ascii_of_nat 34) EmptyString.

Definition void_tags : list string :=
  ["area"; "base"; "br"; "col"; "embed"; "hr"; "img"; "input"; "keygen";
   "link"; "menuitem"; "meta"; "param"; "source"; "track"; "wbr"].

Definition escape_text (s : string) : string :=
  replace ">" "&gt;" (replace "<" "&lt;" (replace "&" "&amp;" s)).

Definition markup_attrs (a : list (string * string)) : string :=
  join EmptyString
       (map (fun kv => " " +:+ fst kv +:+ "=" +:+ dquote +:+ snd kv +:+ dquote) a).

Fixpoint markup (n : node) : string :=
  match n with
  | NavigableString s => escape_text s
  | Tag nm a cs =>
      match cs with
      | [] =>
          if in_list nm void_tags
          then "<" +:+ nm +:+ markup_attrs a +:+ "/>"
          else "<" +:+ nm +:+ markup_attrs a +:+ "></" +:+ nm +:+ ">"
      | _ =>
          "<" +:+ nm +:+ markup_attrs a +:+ ">"
          +:+ join EmptyString (map markup cs) +:+ "</" +:+ nm +:+ ">"
      end
  end.

End Soup.

(* ===================================================================== *)
(** * [src/crawler.py] *)
(* ===================================================================== *)

Module Crawler.
Import Py Re Soup.

(** Comparisons of prices, as the program writes them. *)
Definition is0 (x : Q) : bool := Qeq_bool x 0.
Definition qle (x y : Q) : bool := Qle_bool x y.
Definition qlt (x y : Q) : bool := negb (Qle_bool y x).
(** [lo <= x <= hi] *)
Definition within (lo hi x : Q) : bool := qle lo x && qle x hi.
(** [min(a, b)] and [max(a, b)] *)
Definition pmin (a b : Q) : Q := if qlt b a then b else a.
Definition pmax (a b : Q) : Q := if qlt a b then b else a.

(** [xs.sort()] *)
Fixpoint insert_sorted (x : Q) (l : list Q) : list Q :=
  match l with
  | [] => [x]
  | y :: l' => if qle x y then x :: l else y :: insert_sorted x l'
  end.
Fixpoint sort (l : list Q) : list Q :=
  match l with
  | [] => []
  | x :: l' => insert_sorted x (sort l')
  end.

(** [xs[0]] and [xs[-1]] of a list that is not empty. *)
Definition first (l : list Q) : Q := hd 0%Q l.
Definition final (l : list Q) : Q := List.last l 0%Q.

(** [float] of group [i] of a match, its commas removed *)
Definition group_float (i : nat) (mo : mres) : option Q :=
  float (replace "," EmptyString (group i mo)).

(** ** [_extract_recommendation] *)
Definition _extract_recommendation (call_text : string) : string :=
  let call_upper := upper call_text in
  if contains "BUY" call_upper || contains "BUYS" call_upper then "BUY"
  else if contains "SELL" call_upper || contains "SELLS" call_upper then "SELL"
  else if contains "HOLD" call_upper || contains "HOLDS" call_upper then "HOLD"
  else "BUY".

(** ** [_extract_prices]

    The function is one cascade of guarded blocks over the two slots; each
    block is a function from the slots to the slots, [None] when a [float]
    call raises. *)

Definition slots : Type := (Q * Q)%type.

(** A keyword rule: [mo = re.search(p, text, re.I); if mo: slot = float(...)]. *)
Definition keyword_rule (p : string) (text : string) (slot : Q) : option Q :=
  match search true (re_compile p) text with
  | Some mo => group_float 1 mo
  | None => Some slot
  end.
(** The same under [if slot == 0.0:]. *)
Definition keyword_rule_if0 (p : string) (text : string) (slot : Q) : option Q :=
  if is0 slot then keyword_rule p text slot else Some slot.

Definition target_rules (text : string) : option Q :=
  t ← keyword_rule "target\s+of\s+Rs\.?\s*(\d+(?:,\d{3})*(?:\.\d+)?)" text 0%Q;
  t ← keyword_rule_if0 "Target(?:\s*Price)?[:\s]*Rs\.?\s*(\d+(?:,\d{3})*(?:\.\d+)?)" text t;
  t ← keyword_rule_if0 "(?:TP|PT)[:\s]*Rs\.?\s*(\d+(?:,\d{3})*(?:\.\d+)?)" text t;
  keyword_rule_if0 "price\s+target\s+of\s+Rs\.?\s*(\d+(?:,\d{3})*(?:\.\d+)?)" text t.

Definition current_rules (text : string) : option Q :=
  c ← keyword_rule "(?:Reco|Current|CMP)\s*Price[:\s]*Rs\.?\s*(\d+(?:,\d{3})*(?:\.\d+)?)" text 0%Q;
  c ← keyword_rule_if0 "(?:at|@)\s*Rs\.?\s*(\d+(?:,\d{3})*(?:\.\d+)?)" text c;
  keyword_rule_if0 "CMP[:\s]*Rs\.?\s*(\d+(?:,\d{3})*(?:\.\d+)?)" text c.

(** The state of the slots after the target and current keyword rules. *)
Definition keyword_rules (text : string) : option slots :=
  t ← target_rules text;
  c ← current_rules text;
  Some (c, t).

(** [# Price ranges] *)
Definition range_rule (text : string) (st : slots) : option slots :=
  let '(current_price, target_price) := st in
  if is0 current_price || is0 target_price then
    match search true (re_compile "Rs\.?\s*(\d+(?:,\d{3})*(?:\.\d+)?)\s*-\s*(\d+(?:,\d{3})*(?:\.\d+)?)") text with
    | Some mo =>
        price1 ← group_float 1 mo;
        price2 ← group_float 2 mo;
        Some (if is0 current_price then pmin price1 price2 else current_price,
              if is0 target_price then pmax price1 price2 else target_price)
    | None => Some st
    end
  else Some st.

(** The loop that keeps the numbers of the window; a numeral that [float]
    refuses is skipped ([except ValueError: continue]). *)
Fixpoint in_window (lo hi : Q) (numerals : list string) : list Q :=
  match numerals with
  | [] => []
  | p :: ps =>
      match float (replace "," EmptyString p) with
      | Some price_val =>
          if within lo hi price_val then price_val :: in_window lo hi ps
          else in_window lo hi ps
      | None => in_window lo hi ps
      end
  end.

(** The [Rs] numbers of the text inside the window 10 to 50000, in text
    order. *)
Definition rs_prices (text : string) : list Q :=
  in_window 10 50000
    (findall1 true (re_compile "Rs\.?\s*(\d+(?:,\d{3})*(?:\.\d+)?)") text).

(** [# Extract numbers with Rs currency symbol] *)
Definition rs_rule (text : string) (st : slots) : slots :=
  let '(current_price, target_price) := st in
  if is0 current_price || is0 target_price then
    let prices := rs_prices text in
    if Nat.leb 2 (length prices) then
      let prices := sort prices in
      (if is0 current_price then first prices else current_price,
       if is0 target_price then final prices else target_price)
    else if Nat.eqb (length prices) 1 then
      (current_price, if is0 target_price then first prices else target_price)
    else st
  else st.

(** [# Context-specific patterns]: "Buy at 1500, target 1800" *)
Definition buy_target_rule (text : string) (st : slots) : option slots :=
  let '(current_price, target_price) := st in
  if is0 current_price || is0 target_price then
    match search true (re_compile "(?:buy|purchase)\s+(?:at\s+)?(\d+(?:,\d{3})*(?:\.\d+)?)\s*,?\s*(?:target|tp)\s+(\d+(?:,\d{3})*(?:\.\d+)?)") text with
    | Some mo =>
        c ← (if is0 current_price then group_float 1 mo else Some current_price);
        t ← (if is0 target_price then group_float 2 mo else Some target_price);
        Some (c, t)
    | None => Some st
    end
  else Some st.

(** [# MoneyControl specific patterns]: "Stock Name: BUY (1234/1500)" *)
Definition bracket_rule (text : string) (st : slots) : option slots :=
  let '(current_price, target_price) := st in
  if is0 current_price || is0 target_price then
    match search false (re_compile "\((\d+(?:,\d{3})*(?:\.\d+)?)[/\-](\d+(?:,\d{3})*(?:\.\d+)?)\)") text with
    | Some mo =>
        price1 ← group_float 1 mo;
        price2 ← group_float 2 mo;
        if within 10 50000 price1 && within 10 50000 price2 then
          Some (if is0 current_price then pmin price1 price2 else current_price,
                if is0 target_price then pmax price1 price2 else target_price)
        else Some st
    | None => Some st
    end
  else Some st.

(** The loop over the number pairs: the first pair inside the window whose
    two numbers differ by less than half of the first one fills the empty
    slots and ends the loop; a pair that raises is skipped. *)
Fixpoint number_pair_loop (pairs : list (string * string)) (st : slots) : slots :=
  match pairs with
  | [] => st
  | (a, b) :: rest =>
      match float a, float b with
      | Some price1, Some price2 =>
          if within 50 50000 price1 && within 50 50000 price2 then
            if qlt (Qabs (price2 - price1) / price1) (1 # 2) then
              let '(current_price, target_price) := st in
              (if is0 current_price then pmin price1 price2 else current_price,
               if is0 target_price then pmax price1 price2 else target_price)
            else number_pair_loop rest st
          else number_pair_loop rest st
      | _, _ => number_pair_loop rest st
      end
  end.

(** [# MoneyControl table patterns] *)
Definition number_pair_rule (text : string) (st : slots) : slots :=
  let '(current_price, target_price) := st in
  if is0 current_price || is0 target_price then
    number_pair_loop (findall2 false (re_compile "(\d{3,5})\s+(\d{3,5})") text) st
  else st.

(** [# Standalone realistic numbers] *)
Definition standalone_rule (text : string) (st : slots) : slots :=
  let '(current_price, target_price) := st in
  if is0 current_price || is0 target_price then
    let realistic_prices :=
      in_window 100 20000 (findall1 false (re_compile "\b(\d{3,5})\b") text) in
    if Nat.leb 2 (length realistic_prices) then
      let realistic_prices := sort realistic_prices in
      (if is0 current_price then first realistic_prices else current_price,
       if is0 target_price then final realistic_prices else target_price)
    else st
  else st.

(** The slots when the unanchored [Rs] rule is reached. *)
Definition before_rs_rule (text : string) : option slots :=
  st ← keyword_rules text;
  range_rule text st.

(** The rules that follow the unanchored [Rs] rule. *)
Definition after_rs_rule (text : string) (st : slots) : option slots :=
  st ← buy_target_rule text st;
  st ← bracket_rule text st;
  Some (standalone_rule text (number_pair_rule text st)).

Definition _extract_prices (text : string) : option slots :=
  st ← before_rs_rule text;
  after_rs_rule text (rs_rule text st).

(** ** [_is_valid_company_name] *)

Definition invalid_names : list string :=
  ["all stats"; "view all"; "read more"; "click here"; "see more"; "home";
   "about"; "contact"; "login"; "register"; "search"; "menu"; "portfolio";
   "watchlist"; "news"; "research"; "analysis"; "market"; "stock"; "share";
   "price"; "chart"; "data"; "report"].

Definition non_company_words : list string :=
  ["the"; "and"; "or"; "for"; "with"; "from"; "to"; "by"; "at"; "on"; "in"].

Definition _is_valid_company_name (name : string) : bool :=
  if eqs name EmptyString || Nat.ltb (len name) 3 || Nat.ltb 50 (len name)
  then false
  else if in_list (lower name) invalid_names then false
  else if negb (found (search false (re_compile "[a-zA-Z]") name)) then false
  else if Nat.ltb (len name) (2 * length (findall0 false (re_compile "\d") name))
  then false
  else
    match split (lower name) with
    | w :: _ => negb (in_list w non_company_words)
    | [] => true
    end.

(** ** [_clean_company_name] *)
Definition _clean_company_name (company_name : string) : string :=
  if eqs company_name EmptyString then EmptyString
  else
    let company_name :=
      sub true (re_compile "^(?:Buy|Sell|Hold)\s+") EmptyString company_name in
    let company_name :=
      sub true (re_compile ";\s*target\s+of\s+Rs\s*\d+.*$") EmptyString company_name in
    let company_name :=
      sub true (re_compile ":\s*[A-Za-z\s&\.]+$") EmptyString company_name in
    strip (sub false (re_compile "\s+") " " company_name).

(** ** [_is_likely_broker_name] *)
Definition _is_likely_broker_name (name : string) : bool :=
  if Nat.ltb (len name) 3 || Nat.ltb 30 (len name) then false
  else
    existsb (fun p => found (search true (re_compile p) name))
      ["\b(Securities|Capital|Wealth|Financial|Research|Advisors)\b";
       "\b(Ltd|Limited|Pvt|Private)\b"].

(** ** [_extract_broker_name] *)

Definition known_brokers : list string :=
  ["Motilal Oswal"; "Prabhudas Lilladher"; "Anand Rathi"; "HDFC Securities";
   "ICICI Direct"; "Sharekhan"; "Kotak Securities"; "Axis Securities";
   "Edelweiss"; "YES Securities"; "IIFL Securities"; "Emkay Global";
   "Angel Broking"; "Zerodha"; "5paisa"; "Upstox"; "Religare Securities";
   "India Infoline"; "SMC Global"; "Geojit"; "JM Financial"; "LKP Securities";
   "Nirmal Bang"; "Centrum Broking"; "SBI Securities"; "BOI AXA Investment";
   "IDBI Capital"; "Ventura Securities"; "Choice Broking"; "Master Capital";
   "MoneyControl Research"; "Equitymaster"; "Dalal Street Investment"].

Definition broker_patterns : list string :=
  ["\b([A-Z][a-z]+(?:\s+[A-Z][a-z]+)*)\s+(?:Securities|Capital|Broking|Investment|Financial|Research)\b";
   "\b([A-Z][a-z]+)\s+(?:Securities|Capital|Broking|Investment|Financial|Research)\b";
   "\b([A-Z]{2,5})\s+(?:Securities|Capital|Broking|Investment|Financial|Research)\b"].

(** The first element a function accepts: a [for] loop that returns from
    inside. *)
Fixpoint first_some {A B : Type} (f : A -> option B) (l : list A) : option B :=
  match l with
  | [] => None
  | x :: l' => match f x with Some y => Some y | None => first_some f l' end
  end.

(** The rule of the "Research by" phrase. *)
Definition research_by (text : string) : option string :=
  match search false (re_compile "Research by\s+([A-Za-z\s&\.]+?)(?:\s|$|;|:)") text with
  | Some mo => Some (strip (group 1 mo))
  | None => None
  end.

(** The rule of the name after a colon at the end of the text. *)
Definition after_colon (text : string) : option string :=
  match search false (re_compile ":\s*([A-Za-z\s&\.]+?)(?:\s*$)") text with
  | Some mo =>
      let potential_broker := strip (group 1 mo) in
      if _is_likely_broker_name potential_broker then Some potential_broker
      else None
  | None => None
  end.

Definition known_broker (text : string) : option string :=
  first_some (fun broker =>
                if contains (lower broker) (lower text) then Some broker else None)
             known_brokers.

Definition broker_by_suffix (text : string) : option string :=
  first_some (fun pattern =>
    first_some (fun mt =>
                  if Nat.ltb 2 (len mt)
                     && negb (in_list (lower mt) ["the"; "and"; "ltd"; "limited"])
                  then Some (mt +:+ " Securities") else None)
               (findall1 false (re_compile pattern) text))
    broker_patterns.

Definition _extract_broker_name (text : string) : string :=
  match research_by text with
  | Some b => b
  | None =>
      match after_colon text with
      | Some b => b
      | None =>
          match known_broker text with
          | Some b => b
          | None =>
              match broker_by_suffix text with
              | Some b => b
              | None => EmptyString
              end
          end
      end
  end.

(** ** [_extract_company_name] *)

Definition company_patterns : list string :=
  ["\b([A-Z][a-z]+(?:\s+[A-Z][a-z]+)*\s+(?:Ltd|Limited|Industries|Bank|Corp|Corporation|Financial|Services|Motors|Steel|Power|Energy|Pharma|Technologies))\b";
   "\b(Reliance|TCS|Infosys|HDFC|ICICI|SBI|Wipro|HCL|Bharti|Maruti|Asian Paints|ITC|Hindustan Unilever|Bajaj|Mahindra|Tata)\b"].

(** [cleaned = self._clean_company_name(t); if valid(cleaned): return cleaned] *)
Definition cleaned_if_valid (t : string) : option string :=
  let cleaned := _clean_company_name t in
  if _is_valid_company_name cleaned then Some cleaned else None.

Definition company_from_link (accept : string -> bool) (link : elem)
  : option string :=
  let href := get_or_empty "href" (node_of link) in
  let text := get_text_strip (node_of link) in
  if accept href && Nat.ltb 2 (len text) then cleaned_if_valid text else None.

Definition _extract_company_name (context_element : elem) : string :=
  let links := find_all (named ["a"]) context_element in
  match first_some (company_from_link (contains "/stockpricequote/")) links with
  | Some c => c
  | None =>
    match first_some
            (company_from_link
               (fun href => contains "/stocks/" href || contains "/company/" href))
            links with
    | Some c => c
    | None =>
      let bold_elements :=
        find_all (named ["b"; "strong"; "h1"; "h2"; "h3"; "h4"; "h5"; "h6"])
                 context_element in
      match first_some (fun el => cleaned_if_valid (get_text_strip (node_of el)))
                       bold_elements with
      | Some c => c
      | None =>
        let text_content := get_text (node_of context_element) in
        match first_some (fun pattern =>
                first_some cleaned_if_valid
                           (findall1 false (re_compile pattern) text_content))
              company_patterns with
        | Some c => c
        | None => EmptyString
        end
      end
    end
  end.

(** ** [_extract_prices_from_html]

    The six markup rules run inside one [try]; an exception ends the function
    with the slots as they are ([Stop]). *)

Inductive flow : Type :=
| Next (st : slots)
| Stop (st : slots).

Definition and_then (f : flow) (g : slots -> flow) : flow :=
  match f with
  | Next st => g st
  | Stop st => Stop st
  end.

Definition slots_of (f : flow) : slots :=
  match f with Next st => st | Stop st => st end.

(** The three ways a rule writes a price into the slots. *)
Definition to_target (price : Q) (st : slots) : slots :=
  if is0 (snd st) then (fst st, price) else st.
Definition to_current (price : Q) (st : slots) : slots :=
  if is0 (fst st) then (price, snd st) else st.
Definition by_order (price : Q) (st : slots) : slots :=
  if is0 (snd st) then (fst st, price)
  else if is0 (fst st) then (price, snd st)
  else st.

(** [data-price] attributes *)
Fixpoint data_price_loop (els : list elem) (st : slots) : flow :=
  match els with
  | [] => Next st
  | el :: els' =>
      match get "data-price" (node_of el) with
      | Some price_val =>
          if negb (eqs price_val EmptyString)
             && isdigit (replace "." EmptyString price_val)
          then
            match float price_val with
            | Some price =>
                data_price_loop els'
                  (if within 10 50000 price then by_order price st else st)
            | None => Stop st
            end
          else data_price_loop els' st
      | None => data_price_loop els' st
      end
  end.

(** [title] attributes that hold a price *)
Fixpoint title_loop (els : list elem) (st : slots) : flow :=
  match els with
  | [] => Next st
  | el :: els' =>
      let title_text := get_or_empty "title" (node_of el) in
      match search true (re_compile "Rs\s*(\d+(?:,\d{3})*(?:\.\d+)?)") title_text with
      | Some mo =>
          match group_float 1 mo with
          | Some price =>
              title_loop els'
                (if within 10 50000 price then
                   if contains "target" (lower title_text) then (fst st, price)
                   else if contains "current" (lower title_text)
                           || contains "cmp" (lower title_text)
                   then (price, snd st)
                   else st
                 else st)
          | None => Stop st
          end
      | None => title_loop els' st
      end
  end.

(** Elements whose class names a price *)
Definition price_class_numbers (el : elem) (st : slots) : slots :=
  let text := get_text_strip (node_of el) in
  fold_left
    (fun st num_str =>
       match float (replace "," EmptyString num_str) with
       | Some price =>
           if within 10 50000 price then
             let elem_classes := lower (join " " (classes (node_of el))) in
             if contains "target" elem_classes || contains "target" (lower text)
             then to_target price st
             else if contains "current" elem_classes
                     || contains "current" (lower text)
                     || contains "cmp" elem_classes
             then to_current price st
             else by_order price st
           else st
       | None => st
       end)
    (findall1 false (re_compile "(\d+(?:,\d{3})*(?:\.\d+)?)") text) st.

(** Table cells that hold a bare number *)
Definition price_cell (cell : elem) (st : slots) : slots :=
  let text := get_text_strip (node_of cell) in
  if found (rmatch false (re_compile "^\d+(?:,\d{3})*(?:\.\d+)?$") text) then
    match float (replace "," EmptyString text) with
    | Some price =>
        if within 10 50000 price then
          let siblings := find_next_siblings cell ++ find_previous_siblings cell in
          let context_text :=
            join " " (map (fun sb => lower (get_text sb)) (firstn 3 siblings)) in
          if contains "target" context_text || contains "tp" context_text
          then to_target price st
          else if contains "current" context_text || contains "cmp" context_text
                  || contains "price" context_text
          then to_current price st
          else by_order price st
        else st
    | None => st
    end
  else st.

(** [span], [div], [strong] and [b] elements that hold a bare number *)
Definition numeric_element (el : elem) (st : slots) : slots :=
  let text := get_text_strip (node_of el) in
  if found (rmatch false (re_compile "^\d+(?:,\d{3})*(?:\.\d+)?$") text) then
    match float (replace "," EmptyString text) with
    | Some price =>
        if within 10 50000 price then
          let elem_text := lower (markup (node_of el)) in
          let parent_text :=
            match parent el with
            | Some p => lower (markup (node_of p))
            | None => EmptyString
            end in
          let context := elem_text +:+ " " +:+ parent_text in
          if contains "target" context || contains "tp" context
          then to_target price st
          else if contains "current" context || contains "cmp" context
                  || contains "price" context
          then to_current price st
          else by_order price st
        else st
    | None => st
    end
  else st.

(** Hidden form fields *)
Definition hidden_input (input_elem : elem) (st : slots) : slots :=
  let name := lower (get_or_empty "name" (node_of input_elem)) in
  let value := get_or_empty "value" (node_of input_elem) in
  if (contains "price" name || contains "target" name)
     && isdigit (replace "," EmptyString (replace "." EmptyString value))
  then
    match float (replace "," EmptyString value) with
    | Some price =>
        if within 10 50000 price then
          if contains "target" name then to_target price st
          else if contains "current" name || contains "cmp" name
          then to_current price st
          else st
        else st
    | None => st
    end
  else st.

Definition _extract_prices_from_html (container : elem) : slots :=
  slots_of
    (and_then
       (data_price_loop (find_all (has_attr "data-price") container) (0%Q, 0%Q))
       (fun st =>
     and_then
       (title_loop (find_all (attr_matches true "Rs\s*\d+" "title") container) st)
       (fun st =>
     let st :=
       fold_left (fun st el => price_class_numbers el st)
         (find_all (class_matches true "price|target|current|cmp") container) st in
     let st :=
       fold_left (fun st el => price_cell el st)
         (find_all (fun n => named ["td"; "th"] n
                             && string_matches false "\d+\.?\d*" n) container) st in
     let st :=
       fold_left (fun st el => numeric_element el st)
         (find_all (fun n => named ["span"; "div"; "strong"; "b"] n
                             && string_matches false "\d+" n) container) st in
     Next (fold_left (fun st el => hidden_input el st)
             (find_all (fun n => named ["input"] n && attr_is "type" "hidden" n)
                       container) st)))).

(** ** [_remove_duplicates] *)

Definition dedup_key (rec : BrokerRecommendation) : string * string :=
  (lower (company_name rec), lower (broker_name rec)).

(** One turn of the loop: the list built so far and the set of keys seen. *)
Definition dedup_step (acc : list BrokerRecommendation * gset (string * string))
  (rec : BrokerRecommendation) : list BrokerRecommendation * gset (string * string) :=
  let '(unique_recommendations, seen_combinations) := acc in
  let key := dedup_key rec in
  if bool_decide (key ∈ seen_combinations) then acc
  else (unique_recommendations ++ [rec], {[ key ]} ∪ seen_combinations).

Definition _remove_duplicates (recommendations : list BrokerRecommendation)
  : list BrokerRecommendation :=
  fst (fold_left dedup_step recommendations ([], ∅)).

(** ** The record builders *)

Definition gt0 (x : Q) : bool := qlt 0 x.

Definition or_default (broker : string) : string :=
  if eqs broker EmptyString then "MoneyControl Research" else broker.

(** The search for prices in the container, its parent and the parent's
    [div], [span] and [td] children. *)
Definition search_elements (container : elem) : list elem :=
  container ::
  match parent container with
  | Some p => p :: find_children (named ["div"; "span"; "td"]) p
  | None => []
  end.

Fixpoint surrounding_loop (els : list elem) (st : slots) : option slots :=
  match els with
  | [] => Some st
  | el :: els' =>
      '(extracted_current, extracted_target) ← _extract_prices (get_text (node_of el));
      let '(current_price, target_price) := st in
      let current_price :=
        if is0 current_price && gt0 extracted_current
        then extracted_current else current_price in
      let target_price :=
        if is0 target_price && gt0 extracted_target
        then extracted_target else target_price in
      if gt0 current_price && gt0 target_price
      then Some (current_price, target_price)
      else surrounding_loop els' (current_price, target_price)
  end.

(** The prices of a container before the secondary lookup; [None] when a
    step raises, which the function's [except] turns into "no record". *)
Definition container_prices (container : elem) (text : string) : option slots :=
  let st := _extract_prices_from_html container in
  st ← (if is0 (fst st) || is0 (snd st)
        then surrounding_loop (search_elements container) st
        else Some st);
  if is0 (fst st) && is0 (snd st) then _extract_prices text else Some st.

Definition _extract_recommendation_from_container (container : elem)
  : io (option BrokerRecommendation) :=
  let text := get_text (node_of container) in
  let company_name := _extract_company_name container in
  if eqs company_name EmptyString || negb (_is_valid_company_name company_name)
  then mret None
  else
    let recommendation := _extract_recommendation text in
    if eqs recommendation EmptyString then mret None
    else
      let broker_name := or_default (_extract_broker_name text) in
      match container_prices container text with
      | None => mret None
      | Some (current_price, target_price) =>
          current_price ←
            (if is0 current_price && negb (eqs company_name EmptyString)
             then trigger (FetchCurrentPrice company_name)
             else mret current_price);
          now ← trigger Now;
          mret (Some (mkRec broker_name company_name recommendation
                            target_price current_price now))
      end.

Definition _extract_recommendation_from_context (company_name context_text : string)
  : io (option BrokerRecommendation) :=
  if negb (_is_valid_company_name company_name) then mret None
  else
    let recommendation := _extract_recommendation context_text in
    if eqs recommendation EmptyString then mret None
    else
      let broker_name := or_default (_extract_broker_name context_text) in
      match _extract_prices context_text with
      | None => mret None
      | Some (current_price, target_price) =>
          now ← trigger Now;
          mret (Some (mkRec broker_name (_clean_company_name company_name)
                            recommendation target_price current_price now))
      end.

(** ** [_extract_from_text] *)

Definition text_patterns : list string :=
  ["([A-Za-z\s&]+?):\s*(BUY|SELL|HOLD)";
   "(BUY|SELL|HOLD)\s+([A-Za-z\s&]+)";
   "([A-Za-z\s&]+?)\s+-\s*(BUY|SELL|HOLD)"].

(** What one match gives: the company and the verdict, when the company is
    valid. *)
Definition text_match (mt : string * string) : option (string * string) :=
  let '(company_name, recommendation) :=
    if in_list (upper (snd mt)) ["BUY"; "SELL"; "HOLD"]
    then (_clean_company_name (fst mt), upper (snd mt))
    else (_clean_company_name (snd mt), upper (fst mt)) in
  if _is_valid_company_name company_name
  then Some (company_name, recommendation) else None.

Definition _extract_from_text (text : string) : io (option BrokerRecommendation) :=
  match first_some (fun pattern =>
          first_some text_match (findall2 true (re_compile pattern) text))
        text_patterns with
  | Some (company_name, recommendation) =>
      now ← trigger Now;
      mret (Some (mkRec "MoneyControl Research" company_name recommendation
                        0%Q 0%Q now))
  | None => mret None
  end.

(** ** Embedded JSON

    [json.loads] and the conversions of the values it returns belong to
    Python; the parser is written against them. *)
Record JsonLib : Type := {
  jvalue : Type;
  (** [json.loads(s)] on the text of an object: its members, [None] when it
      raises *)
  json_loads : string -> option (list (string * jvalue));
  (** [bool(v)], [str(v)] and [float(v)], [None] when it raises *)
  truthy : jvalue -> bool;
  py_str : jvalue -> string;
  py_float : jvalue -> option Q
}.

Fixpoint io_fold {A S : Type} (f : S -> A -> io S) (l : list A) (s : S) : io S :=
  match l with
  | [] => mret s
  | x :: l' => s' ← f s x; io_fold f l' s'
  end.

Section Parser.
Context (J : JsonLib).

Fixpoint member (key : string) (data : list (string * jvalue J)) : option (jvalue J) :=
  match data with
  | [] => None
  | (k, v) :: data' => if eqs key k then Some v else member key data'
  end.

(** [if key in data and data[key]:] *)
Definition present (data : list (string * jvalue J)) (key : string)
  : option (jvalue J) :=
  match member key data with
  | Some v => if truthy J v then Some v else None
  | None => None
  end.

(** The first key that is present and whose value [float] accepts. *)
Definition first_float (keys : list string) (data : list (string * jvalue J)) : Q :=
  match first_some (fun key => v ← present data key; py_float J v) keys with
  | Some x => x
  | None => 0%Q
  end.

Definition _extract_from_json_data (data : list (string * jvalue J))
  : io (list BrokerRecommendation) :=
  let company_name :=
    match first_some (present data)
            ["name"; "company"; "symbol"; "companyName"; "stockName"] with
    | Some v => strip (py_str J v)
    | None => EmptyString
    end in
  let current_price :=
    first_float ["price"; "currentPrice"; "lastPrice"; "ltp"] data in
  let target_price :=
    first_float ["targetPrice"; "target"; "priceTarget"; "tp"] data in
  let recommendation :=
    match first_some (present data) ["recommendation"; "call"; "action"] with
    | Some v => _extract_recommendation (py_str J v)
    | None => "BUY"
    end in
  if negb (eqs company_name EmptyString) && _is_valid_company_name company_name
  then
    now ← trigger Now;
    mret [mkRec "MoneyControl Research" company_name recommendation
                target_price current_price now]
  else mret [].

(** ** [_parse_html_content] *)

Definition verdict_words : list string := ["BUY"; "SELL"; "HOLD"].

Definition json_object_pattern : string :=
  "\{[^{}]*(?:" +:+ dquote +:+ "price" +:+ dquote +:+ "|"
  +:+ dquote +:+ "target" +:+ dquote +:+ ")[^{}]*\}".

(** The loop over the scripts that embed JSON. *)
Definition json_script_step (recommendations : list BrokerRecommendation)
  (script : elem) : io (list BrokerRecommendation) :=
  match dot_string (node_of script) with
  | Some script_content =>
      if negb (eqs script_content EmptyString)
         && (contains "price" (lower script_content)
             || contains "target" (lower script_content))
      then
        io_fold (fun recs json_str =>
                   match json_loads J json_str with
                   | Some data =>
                       found ← _extract_from_json_data data;
                       mret (recs ++ found)
                   | None => mret recs
                   end)
                (findall0 true (re_compile json_object_pattern) script_content)
                recommendations
      else mret recommendations
  | None => mret recommendations
  end.

(** The list of records and the set of keys already taken. *)
Definition pstate : Type :=
  (list BrokerRecommendation * gset (string * string))%type.

(** [key = ...; if key not in processed: append, add] *)
Definition add_record (st : pstate) (rec : BrokerRecommendation) : pstate :=
  let key := dedup_key rec in
  if bool_decide (key ∈ snd st) then st
  else (fst st ++ [rec], {[ key ]} ∪ snd st).

Definition container_step (st : pstate) (container : elem) : io pstate :=
  let container_text := get_text (node_of container) in
  if any_in verdict_words (upper container_text) then
    rec ← _extract_recommendation_from_container container;
    match rec with
    | Some rec =>
        if negb (eqs (company_name rec) EmptyString)
        then mret (add_record st rec) else mret st
    | None => mret st
    end
  else mret st.

(** [parent = link.parent], then up to three levels higher. *)
Fixpoint climb (n : nat) (e : elem) : elem :=
  match n with
  | O => e
  | S n' => match parent e with Some p => climb n' p | None => climb n' e end
  end.

Definition link_step (st : pstate) (link : elem) : io pstate :=
  let link_text := get_text_strip (node_of link) in
  if Nat.ltb 2 (len link_text) && _is_valid_company_name link_text then
    match parent link with
    | Some p =>
        let context_text := get_text (node_of (climb 3 p)) in
        if any_in verdict_words (upper context_text) then
          rec ← _extract_recommendation_from_context link_text context_text;
          match rec with
          | Some rec => mret (add_record st rec)
          | None => mret st
          end
        else mret st
    | None => mret st
    end
  else mret st.

Definition text_step (st : pstate) (text_element : string) : io pstate :=
  rec ← _extract_from_text text_element;
  match rec with
  | Some rec => mret (add_record st rec)
  | None => mret st
  end.

Definition _parse_html_content (soup : node) : io (list BrokerRecommendation) :=
  let doc := Elem soup [] in
  let recommendation_texts :=
    find_strings (fun text =>
                    negb (eqs text EmptyString)
                    && any_in ["BUY"; "SELL"; "HOLD"; "TARGET"; "RECOMMENDATION"]
                              (upper text)) doc in
  let table_rows :=
    find_all (fun n => named ["tr"; "li"; "div"] n
                && class_matches true "stock|recommendation|research|idea|row|item" n)
             doc in
  let stock_links :=
    find_all (fun n => named ["a"] n
                && attr_matches false "/stocks?/|/stockpricequote/|/company/" "href" n)
             doc in
  let json_scripts :=
    find_all (fun n => named ["script"] n
                && string_matches true "\{.*price.*\}|\[.*price.*\]" n) doc in
  recommendations ← io_fold json_script_step json_scripts [];
  st ← io_fold container_step table_rows (recommendations, ∅);
  st ← io_fold link_step stock_links st;
  st ← (match fst st with
        | [] => io_fold text_step (firstn 20 recommendation_texts) st
        | _ => mret st
        end);
  mret (_remove_duplicates (fst st)).

End Parser.

(** ** [get_recommendations] *)

(** A body under [try]: it yields a value or raises. *)
Definition try_bind {A B : Type} (p : io (outcome A)) (f : A -> io (outcome B))
  : io (outcome B) :=
  x ← p;
  match x with
  | Returned a => f a
  | Raised msg => mret (Raised msg)
  end.

(** [try: body except Exception: handler] *)
Definition try_except {A : Type} (body : io (outcome A)) (handler : string -> io A)
  : io A :=
  x ← body;
  match x with
  | Returned a => mret a
  | Raised msg => handler msg
  end.

Definition nonempty {A : Type} (l : list A) : bool :=
  match l with [] => false | _ => true end.

Definition get_recommendations : io (list BrokerRecommendation) :=
  try_except
    (try_bind (trigger Selenium) (fun recommendations =>
       if nonempty recommendations then mret (Returned recommendations)
       else
         try_bind (trigger Requests) (fun recommendations =>
           if nonempty recommendations then mret (Returned recommendations)
           else mret (Returned []))))
    (fun _ => mret []).

End Crawler.

(* ===================================================================== *)
(** * [src/handlers.py] *)
(* ===================================================================== *)

Module Handlers.
Import Py Crawler.

(** The request descriptor: the two entries the handlers read.  [None] is a
    key that is absent or null. *)
Record lambda_event : Type := mkEvent {
  httpMethod : option string;
  headers : option (list (string * string))
}.

(** A JSON value to serialise; [JIso t] is the text [t.isoformat()]. *)
Inductive json : Type :=
| JNull
| JInt (n : nat)
| JNum (q : Q)
| JStr (s : string)
| JIso (t : datetime)
| JList (l : list json)
| JDict (d : list (string * json)).

(** What a handler passes to [create_response]: a string, a dict or one of
    the dataclasses of [models.py]. *)
Inductive payload : Type :=
| PStr (s : string)
| PDict (d : list (string * json))
| ErrorResponse (error : string)
| MessageResponse (message : string)
| HealthResponse (status : string) (timestamp : datetime) (service : string).

(** [dataclasses.asdict] *)
Definition asdict (p : payload) : list (string * json) :=
  match p with
  | PStr _ => []
  | PDict d => d
  | ErrorResponse error => [("error", JStr error)]
  | MessageResponse message => [("message", JStr message); ("timestamp", JNull)]
  | HealthResponse status timestamp service =>
      [("status", JStr status); ("timestamp", JIso timestamp);
       ("service", JStr service)]
  end.

(** The body of a response: a string as it is, or the text
    [json.dumps(d, default=str, indent=2)] of a dict, kept as the dict. *)
Inductive body_json : Type :=
| Text (s : string)
| Dumps (d : list (string * json)).

Record response : Type := mkResponse {
  statusCode : nat;
  resp_headers : list (string * string);
  body : body_json
}.

Definition create_response (status_code : nat) (body : payload) : response :=
  let headers :=
    [("Content-Type", "application/json");
     ("Access-Control-Allow-Origin", "*");
     ("Access-Control-Allow-Headers", "Content-Type,X-Api-Key");
     ("Access-Control-Allow-Methods", "GET,POST,OPTIONS")] in
  mkResponse status_code headers
             (match body with
              | PStr s => Text s
              | _ => Dumps (asdict body)
              end).

Definition filter_recommendations (recommendations : list BrokerRecommendation)
  : list BrokerRecommendation :=
  filter (fun rec =>
            negb (eqs (company_name rec) EmptyString)
            && negb (eqs (recommendation rec) EmptyString)
            && Nat.ltb 2 (len (company_name rec))
            && in_list (recommendation rec) ["BUY"; "SELL"; "HOLD"])
         recommendations.

(** [round(x, 2)] on the exact value: to the nearest hundredth, a tie to the
    even one. *)
Definition round2 (x : Q) : Q :=
  let y := (x * 100)%Q in
  let f := Qfloor y in
  let d := (y - inject_Z f)%Q in
  let n := if qlt d (1 # 2) then f
           else if qlt (1 # 2) d then (f + 1)%Z
           else if Z.even f then f else (f + 1)%Z in
  Qred (n # 100).

Definition is_options (event : lambda_event) : bool :=
  match httpMethod event with
  | Some mth => eqs mth "OPTIONS"
  | None => false
  end.

(** [event.get("headers", {}) or {}] *)
Definition headers_of (event : lambda_event) : list (string * string) :=
  match headers event with Some h => h | None => [] end.

Section Configured.
(** [API_KEY = os.environ.get("API_KEY", "dev-api-key-123")], read once when
    the module is loaded. *)
Variable API_KEY : string.

(** The loop over [headers.items()], in the order of the dict. *)
Fixpoint validate_loop (items : list (string * string)) : bool :=
  match items with
  | [] => false
  | (key, value) :: items' =>
      if eqs (lower key) "x-api-key" then eqs value API_KEY
      else validate_loop items'
  end.

Definition validate_api_key (event : lambda_event) : bool :=
  let headers := headers_of event in
  validate_loop headers.

Definition recommendation_json (rec : BrokerRecommendation) : json :=
  JDict [("broker_name", JStr (broker_name rec));
         ("company_name", JStr (company_name rec));
         ("recommendation", JStr (recommendation rec));
         ("target_price", JNum (target_price rec));
         ("current_price", JNum (current_price rec));
         ("reporting_date", JIso (reporting_date rec))].

(** The handlers run under [try: ... except Exception] that answers 500; no
    step of their bodies raises, [get_recommendations] having its own
    catch-all. *)
Definition lambda_handler (event : lambda_event) : io response :=
  if is_options event then mret (create_response 200 (PStr EmptyString))
  else if negb (validate_api_key event)
  then mret (create_response 401 (ErrorResponse "Invalid API key"))
  else
    _ ← trigger NewCrawler;
    recommendations ← get_recommendations;
    let filtered_recommendations := filter_recommendations recommendations in
    let recommendations_data := map recommendation_json filtered_recommendations in
    now ← trigger Now;
    mret (create_response 200
            (PDict [("recommendations", JList recommendations_data);
                    ("timestamp", JIso now);
                    ("total_recommendations",
                     JInt (length filtered_recommendations))])).

Definition health_check_handler (event : lambda_event) : io response :=
  now ← trigger Now;
  mret (create_response 200 (HealthResponse "healthy" now "broker-recommendations")).

Definition cleanup_handler (event : lambda_event) : io response :=
  if negb (validate_api_key event)
  then mret (create_response 401 (ErrorResponse "Invalid API key"))
  else mret (create_response 200
               (MessageResponse "Docker container handles cleanup automatically")).

Definition qsum (l : list Q) : Q := fold_left Qplus l 0%Q.

Definition stats_handler (event : lambda_event) : io response :=
  if negb (validate_api_key event)
  then mret (create_response 401 (ErrorResponse "Invalid API key"))
  else
    _ ← trigger NewCrawler;
    recommendations ← get_recommendations;
    let filtered_recommendations := filter_recommendations recommendations in
    let buy_count :=
      length (filter (fun rec => eqs (recommendation rec) "BUY")
                     filtered_recommendations) in
    let sell_count :=
      length (filter (fun rec => eqs (recommendation rec) "SELL")
                     filtered_recommendations) in
    let targets :=
      filter gt0 (map target_price filtered_recommendations) in
    let avg_target :=
      match targets with
      | [] => JInt 0
      | _ => JNum (round2 (qsum targets / inject_Z (Z.of_nat (length targets))))
      end in
    now ← trigger Now;
    mret (create_response 200
            (PDict [("total_recommendations", JInt (length filtered_recommendations));
                    ("buy_recommendations", JInt buy_count);
                    ("sell_recommendations", JInt sell_count);
                    ("average_target_price", avg_target);
                    ("timestamp", JIso now)])).

End Configured.

(** ** [get_top_companies] and [get_top_brokers]

    The [defaultdict(list)] of the two functions is the list of its items in
    the order in which the keys were first used, which is the order
    [items()] gives them in. *)

(** [d[k].append(v)] *)
Fixpoint append_to (k : string) (v : Q) (d : list (string * list Q))
  : list (string * list Q) :=
  match d with
  | [] => [(k, [v])]
  | (k', vs) :: d' =>
      if eqs k k' then (k', vs ++ [v]) :: d' else (k', vs) :: append_to k v d'
  end.


(** [max(targets)]: the first of the largest values; [None] is the
    [ValueError] of an empty list. *)
Definition maximum (targets : list Q) : option Q :=
  match targets with
  | [] => None
  | x :: xs => Some (fold_left pmax xs x)
  end.

(** The loop over [items()] that computes one figure per key. *)
Fixpoint summarise (figure : list Q -> option Q) (d : list (string * list Q))
  : option (list (string * Q)) :=
  match d with
  | [] => Some []
  | (k, vs) :: d' =>
      v ← figure vs;
      rest ← summarise figure d';
      Some ((k, v) :: rest)
  end.

(** [sorted(l, key=lambda x: x[1], reverse=True)]: descending and stable. *)
Fixpoint insert_desc (x : string * Q) (l : list (string * Q)) : list (string * Q) :=
  match l with
  | [] => [x]
  | y :: l' => if qlt (snd x) (snd y) then y :: insert_desc x l' else x :: l
  end.
Fixpoint sorted_desc (l : list (string * Q)) : list (string * Q) :=
  match l with
  | [] => []
  | x :: l' => insert_desc x (sorted_desc l')
  end.


Definition get_top_brokers (recommendations : list BrokerRecommendation)
  (limit : nat) : option (list (string * Q)) :=
  let broker_targets :=
    fold_left (fun d rec =>
                 if gt0 (target_price rec)
                 then append_to (broker_name rec) (target_price rec) d
                 else d)
              recommendations [] in
  broker_best ← summarise maximum broker_targets;
  Some (firstn limit (sorted_desc broker_best)).

End Handlers.

(* ===================================================================== *)
(** * The vocabulary of the properties *)
(* ===================================================================== *)

Import Py Re Soup Crawler Handlers.

(** [w] occurs in [s]: [s] is some text, [w], and some text. *)
Definition occurs (w s : string) : Prop :=
  exists a b, s = a +:+ w +:+ b.

(** The upper-cased text contains one of the words. *)
Definition mentions (words : list string) (s : string) : Prop :=
  exists w, In w words /\ occurs w (upper s).

(** A header whose lower-cased name is "x-api-key". *)
Definition names_api_key (kv : string * string) : bool :=
  eqs (lower (fst kv)) "x-api-key".

(** A strategy fails: it raises or returns nothing. *)
Definition fails (o : outcome (list BrokerRecommendation)) : Prop :=
  match o with
  | Raised _ => True
  | Returned l => l = []
  end.

(** An environment in which both strategies fail whenever they are tried. *)
Definition exhausted {W : Type} (h : world W) : Prop :=
  forall w, fails (fst (h _ Selenium w)) /\ fails (fst (h _ Requests w)).

(** An environment with no state in which the browser strategy raises, the
    HTTP strategy returns nothing and no price is found. *)
Definition offline : world unit :=
  fun X e =>
    match e in event X return unit -> X * unit with
    | FetchCurrentPrice _ => fun w => (0%Q, w)
    | Now => fun w => (0, w)
    | NewCrawler => fun w => (tt, w)
    | Selenium => fun w => (Raised "Selenium setup failed", w)
    | Requests => fun w => (Returned [], w)
    end.

(** The loop of [_remove_duplicates] from a set of keys already seen. *)
Fixpoint dedup_from (seen : gset (string * string))
  (l : list BrokerRecommendation) : list BrokerRecommendation :=
  match l with
  | [] => []
  | r :: l' =>
      if bool_decide (dedup_key r ∈ seen) then dedup_from seen l'
      else r :: dedup_from ({[ dedup_key r ]} ∪ seen) l'
  end.


(** The texts of a list, one after the other. *)
Fixpoint concat_all (ws : list string) : string :=
  match ws with
  | [] => EmptyString
  | w :: ws' => w +:+ concat_all ws'
  end.

(** The texts a pattern can read, whatever stands around them. *)
Inductive lang (ci : bool) : regex -> string -> Prop :=
| lang_eps : lang ci REps EmptyString
| lang_set cs c : cset_mem ci cs c = true -> lang ci (RSet cs) (String c EmptyString)
| lang_seq a b w1 w2 : lang ci a w1 -> lang ci b w2 -> lang ci (RSeq a b) (w1 +:+ w2)
| lang_alt_l a b w : lang ci a w -> lang ci (RAlt a b) w
| lang_alt_r a b w : lang ci b w -> lang ci (RAlt a b) w
| lang_rep g lo hi a ws :
    Forall (lang ci a) ws ->
    lo <= length ws ->
    (forall h, hi = Some h -> length ws <= h) ->
    lang ci (RRep g lo hi a) (concat_all ws)
| lang_grp i a w : lang ci a w -> lang ci (RGrp i a) w
| lang_bol : lang ci RBol EmptyString
| lang_eol : lang ci REol EmptyString
| lang_wordb : lang ci RWordB EmptyString.

(** The groups that take part in every match of a pattern. *)
Fixpoint definite (r : regex) : list nat :=
  match r with
  | RSeq a b => definite a ++ definite b
  | RRep _ (S _) _ a => definite a
  | RGrp i a => i :: definite a
  | _ => []
  end.

(** Every group of the pattern wraps an expression that [ok] accepts. *)
Fixpoint groups_ok (ok : regex -> bool) (r : regex) : bool :=
  match r with
  | RSeq a b | RAlt a b => groups_ok ok a && groups_ok ok b
  | RRep _ _ _ a => groups_ok ok a
  | RGrp _ a => ok a && groups_ok ok a
  | _ => true
  end.

(** The captures grew by groups that satisfy [G], the groups [defs] among
    them. *)
Definition extends_by (G : string -> Prop) (defs : list nat)
  (c0 c1 : list (nat * string)) : Prop :=
  exists new,
    c1 = new ++ c0
    /\ Forall (fun e => G (snd e)) new
    /\ forall i, In i defs -> In i (map fst new).

(** A successful match of [r] before the continuation [k] reads a text of
    the pattern and hands [k] a state whose captures grew as described. *)
Definition sound_for (ci : bool) (G : string -> Prop) (r : regex) : Prop :=
  forall st k res,
    m ci r st k = Some res ->
    exists st' w,
      k st' = Some res
      /\ rest st = w +:+ rest st'
      /\ lang ci r w
      /\ extends_by G (definite r) (caps st) (caps st').

Global Instance cset_eq_dec : EqDecision cset.
Proof. solve_decision. Defined.
Global Instance regex_eq_dec : EqDecision regex.
Proof. solve_decision. Defined.

(** The numeral of the price patterns: [\d+(?:,\d{3})*(?:\.\d+)?]. *)
Definition NUM : regex :=
  Eval vm_compute in re_compile "\d+(?:,\d{3})*(?:\.\d+)?".

(** The expression is the numeral pattern. *)
Definition is_num (a : regex) : bool := bool_decide (a = NUM).

(** A text that [float] accepts once its commas are removed, with a value
    that is not negative. *)
Definition numeral (w : string) : Prop :=
  exists q, float (replace "," EmptyString w) = Some q /\ (0 <= q)%Q.

(** The text without its commas. *)
Fixpoint uncomma (s : string) : string :=
  match s with
  | EmptyString => EmptyString
  | String c s' => if Ascii.eqb "," c then uncomma s' else String c (uncomma s')
  end.

(** The price patterns: every group is the numeral, and the groups that the
    program reads take part in every match. *)
Definition price_pattern (groups : list nat) (p : string) : bool :=
  groups_ok is_num (re_compile p)
  && forallb (fun i => existsb (Nat.eqb i) (definite (re_compile p))) groups.

(** Neither slot is negative. *)
Definition nonneg (st : slots) : Prop := (0 <= fst st)%Q /\ (0 <= snd st)%Q.

(** A step of the cascade leaves a filled slot as it is. *)
Definition keeps (st st' : slots) : Prop :=
  (is0 (fst st) = false -> fst st' = fst st)
  /\ (is0 (snd st) = false -> snd st' = snd st).

(** The text of the end-to-end scenario of the specification. *)
Definition scenario_text : string :=
  "Buy Reliance Industries; target of Rs 3000, CMP Rs 2500 — Research by Motilal Oswal".

(** The results a program can end with, over all the answers it may get. *)
Fixpoint leaf {A : Type} (p : io A) (a : A) : Prop :=
  match p with
  | Ret b => a = b
  | Vis e k => exists x, leaf (k x) a
  end.

(** Two programs agree up to [R]: whatever the answers, their results are
    related. *)
Definition agree {A : Type} (R : A -> A -> Prop) (p1 p2 : io A) : Prop :=
  forall a1 a2, leaf p1 a1 -> leaf p2 a2 -> R a1 a2.

(** What the page decides of a record: the company, the broker, the verdict
    and the target price.  The current price may come from the secondary
    lookup and the date comes from the clock. *)
Definition core (r : BrokerRecommendation) : string * string * string * Q :=
  (company_name r, broker_name r, recommendation r, target_price r).

(** The containers of a page: the rows, list items and blocks whose class
    names a stock, as the parser collects them. *)
Definition containers_of (soup : node) : list elem :=
  find_all (fun n => named ["tr"; "li"; "div"] n
              && class_matches true "stock|recommendation|research|idea|row|item" n)
           (Elem soup []).

(** The record is that of a container of the page in which neither the
    markup nor the texts give a current price. *)
Definition priceless_container (soup : node) (r : BrokerRecommendation) : Prop :=
  exists container c t,
    In container (containers_of soup)
    /\ container_prices container (get_text (node_of container)) = Some (c, t)
    /\ is0 c = true
    /\ company_name r = _extract_company_name container
    /\ broker_name r
       = or_default (_extract_broker_name (get_text (node_of container)))
    /\ recommendation r = _extract_recommendation (get_text (node_of container))
    /\ target_price r = t.

(** Two records of two runs on a page: they agree on what the page decides,
    and on the current price too unless the page gives none for them. *)
Definition same_up_to_lookup (soup : node) (a b : BrokerRecommendation) : Prop :=
  core a = core b
  /\ (current_price a = current_price b \/ priceless_container soup a).

(** Parser states that agree in this way. *)
Definition same_state (soup : node) (s1 s2 : pstate) : Prop :=
  Forall2 (same_up_to_lookup soup) (fst s1) (fst s2) /\ snd s1 = snd s2.

(** A page with one container and no script, so that [json.loads] is never
    called. *)
Definition no_json : JsonLib :=
  Build_JsonLib unit (fun _ => None) (fun _ => false) (fun _ => EmptyString)
                (fun _ => None).

(** The page [<li class="idea">Buy Infosys, target of Rs 1700</li>]. *)
Definition infosys_page : node :=
  Tag "[document]" []
      [Tag "li" [("class", "idea")]
           [NavigableString "Buy Infosys, target of Rs 1700"]].

(** An environment whose state is a clock that every operation advances; the
    price lookup fails before time 2 and answers 1480 from then on. *)
Definition ticking : world nat :=
  fun X e =>
    match e in event X return nat -> X * nat with
    | FetchCurrentPrice _ => fun w => (if Nat.ltb w 2 then 0%Q else 1480%Q, S w)
    | Now => fun w => (w, S w)
    | NewCrawler => fun w => (tt, S w)
    | Selenium => fun w => (Returned [], S w)
    | Requests => fun w => (Returned [], S w)
    end.

(** The verdicts the handlers let through. *)
Definition verdicts : list string := ["BUY"; "SELL"; "HOLD"].

(** A price that a rule with the window 10 to 50000 may leave in a slot: 0.0
    or a value of the window. *)
Definition plausible (x : Q) : Prop :=
  is0 x = true \/ within 10 50000 x = true.

Definition plausible_slots (st : slots) : Prop :=
  plausible (fst st) /\ plausible (snd st).

(** The dict holds the value [v] in the list of the key [k]. *)
Definition holds (d : list (string * list Q)) (k : string) (v : Q) : Prop :=
  exists vs, In (k, vs) d /\ In v vs.

(** What the grouping loop of the two ranking functions reads from a list of
    records: the positive target prices under the key of their record. *)
Definition positive_target (key : BrokerRecommendation -> string)
  (recs : list BrokerRecommendation) (k : string) (v : Q) : Prop :=
  exists rec, In rec recs /\ key rec = k /\ target_price rec = v
              /\ gt0 v = true.



(** The first entry ranks before the second one: its figure is not smaller. *)
Definition ranks_before (a b : string * Q) : Prop := (snd b <= snd a)%Q.

(** The two steps that [get_top_companies] and [get_top_brokers] share: the
    grouping loop, and the figures sorted and cut to the limit. *)
Definition grouped (key : BrokerRecommendation -> string)
  (recs : list BrokerRecommendation) : list (string * list Q) :=
  fold_left (fun d rec =>
               if gt0 (target_price rec)
               then append_to (key rec) (target_price rec) d
               else d)
            recs [].

Definition ranked (figure : list Q -> option Q) (d : list (string * list Q))
  (limit : nat) : option (list (string * Q)) :=
  l ← summarise figure d; Some (firstn limit (sorted_desc l)).

(** The record names a broker. *)
Definition has_broker (r : BrokerRecommendation) : Prop :=
  broker_name r <> EmptyString.


(* ===================================================================== *)
(** * Properties *)
(* ===================================================================== *)

(** ** The patterns and the tests of the repository *)

(** Every pattern of the crawler is in the syntax that [re_compile] reads. *)
Lemma patterns_compile :
  forallb compiles
    (["target\s+of\s+Rs\.?\s*(\d+(?:,\d{3})*(?:\.\d+)?)";
     "Target(?:\s*Price)?[:\s]*Rs\.?\s*(\d+(?:,\d{3})*(?:\.\d+)?)";
     "(?:TP|PT)[:\s]*Rs\.?\s*(\d+(?:,\d{3})*(?:\.\d+)?)";
     "price\s+target\s+of\s+Rs\.?\s*(\d+(?:,\d{3})*(?:\.\d+)?)";
     "(?:Reco|Current|CMP)\s*Price[:\s]*Rs\.?\s*(\d+(?:,\d{3})*(?:\.\d+)?)";
     "(?:at|@)\s*Rs\.?\s*(\d+(?:,\d{3})*(?:\.\d+)?)";
     "CMP[:\s]*Rs\.?\s*(\d+(?:,\d{3})*(?:\.\d+)?)";
     "Rs\.?\s*(\d+(?:,\d{3})*(?:\.\d+)?)\s*-\s*(\d+(?:,\d{3})*(?:\.\d+)?)";
     "Rs\.?\s*(\d+(?:,\d{3})*(?:\.\d+)?)";
     "(?:buy|purchase)\s+(?:at\s+)?(\d+(?:,\d{3})*(?:\.\d+)?)\s*,?\s*(?:target|tp)\s+(\d+(?:,\d{3})*(?:\.\d+)?)";
     "\((\d+(?:,\d{3})*(?:\.\d+)?)[/\-](\d+(?:,\d{3})*(?:\.\d+)?)\)";
     "(\d{3,5})\s+(\d{3,5})";
     "\b(\d{3,5})\b";
     "[a-zA-Z]";
     "\d";
     "^(?:Buy|Sell|Hold)\s+";
     ";\s*target\s+of\s+Rs\s*\d+.*$";
     ":\s*[A-Za-z\s&\.]+$";
     "\s+";
     "Research by\s+([A-Za-z\s&\.]+?)(?:\s|$|;|:)";
     ":\s*([A-Za-z\s&\.]+?)(?:\s*$)";
     "Rs\s*(\d+(?:,\d{3})*(?:\.\d+)?)";
     "(\d+(?:,\d{3})*(?:\.\d+)?)";
     "^\d+(?:,\d{3})*(?:\.\d+)?$";
     "Rs\s*\d+";
     "price|target|current|cmp";
     "\d+\.?\d*";
     "\d+";
     "stock|recommendation|research|idea|row|item";
     "/stocks?/|/stockpricequote/|/company/";
     "\{.*price.*\}|\[.*price.*\]";
     "\b(Securities|Capital|Wealth|Financial|Research|Advisors)\b";
     "\b(Ltd|Limited|Pvt|Private)\b"]
     ++ text_patterns ++ company_patterns ++ broker_patterns
     ++ [json_object_pattern])
  = true.
Proof. vm_compute. reflexivity. Qed.

(** [tests/test_crawler.py]: [test_extract_recommendation] and
    [test_clean_company_name]. *)
Lemma tests_of_the_repository :
  _extract_recommendation "BUY" = "BUY"
  /\ _extract_recommendation "SELL" = "SELL"
  /\ _extract_recommendation "HOLD" = "HOLD"
  /\ _extract_recommendation "ACCUMULATE" = "BUY"
  /\ _clean_company_name "Buy Reliance Industries" = "Reliance Industries"
  /\ _clean_company_name "TCS: Motilal Oswal" = "TCS".
Proof. vm_compute. by split_and!. Qed.

(** ** Strings *)

Lemma eqs_true (a b : string) : eqs a b = true <-> a = b.
Proof. apply String.eqb_eq. Qed.

Lemma eqs_false (a b : string) : eqs a b = false <-> a <> b.
Proof. apply String.eqb_neq. Qed.

Lemma startswith_spec (p s : string) :
  startswith p s = true <-> exists b, s = p +:+ b.
Proof.
  revert s. induction p as [|c p IH]; intros s; simpl.
  - split; [intros _; by exists s | done].
  - destruct s as [|d s]; simpl.
    + split; [done | intros [b Hb]; discriminate].
    + rewrite andb_true_iff, Ascii.eqb_eq, IH. split.
      * intros [-> [b ->]]. by exists b.
      * intros [b Hb]. injection Hb as -> ->. split; [done | by exists b].
Qed.

Lemma contains_spec (w s : string) : contains w s = true <-> occurs w s.
Proof.
  induction s as [|c s IH]; simpl.
  - rewrite orb_false_r, startswith_spec. split.
    + intros [b Hb]. exists EmptyString, b. done.
    + intros [a [b Hab]]. destruct a as [|x a]; simpl in Hab.
      * by exists b.
      * discriminate.
  - rewrite orb_true_iff, startswith_spec, IH. split.
    + intros [[b Hb] | [a [b Hab]]].
      * exists EmptyString, b. done.
      * exists (String c a), b. simpl. by rewrite Hab.
    + intros [a [b Hab]]. destruct a as [|x a]; simpl in Hab.
      * left. by exists b.
      * right. injection Hab as -> ->. by exists a, b.
Qed.

(** ** The verdict *)

Lemma mentions_two (a b s : string) :
  contains a (upper s) || contains b (upper s) = true <-> mentions [a; b] s.
Proof.
  rewrite orb_true_iff, !contains_spec. unfold mentions. split.
  - intros [H | H]; [exists a | exists b]; simpl; auto.
  - intros [w [[<- | [<- | []]] H]]; auto.
Qed.

(** C2 ([_extract_recommendation]).  The verdict of a text is decided by the
    words its upper-cased form contains, in this order: BUY or BUYS gives
    BUY; else SELL or SELLS gives SELL; else HOLD or HOLDS gives HOLD; else
    BUY.  The verdict is always one of the three, and the three examples of
    the specification evaluate as it says. *)
Theorem verdict_by_first_keyword (s : string) :
  let r := _extract_recommendation s in
  ((mentions ["BUY"; "BUYS"] s /\ r = "BUY")
   \/ (~ mentions ["BUY"; "BUYS"] s /\ mentions ["SELL"; "SELLS"] s /\ r = "SELL")
   \/ (~ mentions ["BUY"; "BUYS"] s /\ ~ mentions ["SELL"; "SELLS"] s
       /\ mentions ["HOLD"; "HOLDS"] s /\ r = "HOLD")
   \/ (~ mentions ["BUY"; "BUYS"] s /\ ~ mentions ["SELL"; "SELLS"] s
       /\ ~ mentions ["HOLD"; "HOLDS"] s /\ r = "BUY"))
  /\ (r = "BUY" \/ r = "SELL" \/ r = "HOLD")
  /\ _extract_recommendation "ACCUMULATE" = "BUY"
  /\ _extract_recommendation "sells heavily" = "SELL"
  /\ _extract_recommendation "hold steady" = "HOLD".
Proof.
  cbv zeta. unfold _extract_recommendation.
  pose proof (mentions_two "BUY" "BUYS" s) as Hb.
  pose proof (mentions_two "SELL" "SELLS" s) as Hs.
  pose proof (mentions_two "HOLD" "HOLDS" s) as Hh.
  destruct (contains "BUY" (upper s) || contains "BUYS" (upper s)) eqn:Eb.
  { split; [left; split; [by apply Hb | done] | split; [by left | by vm_compute]]. }
  assert (~ mentions ["BUY"; "BUYS"] s) as Nb by (intros H; apply Hb in H; done).
  destruct (contains "SELL" (upper s) || contains "SELLS" (upper s)) eqn:Es.
  { split; [right; left; split_and!; [done | by apply Hs | done]
           | split; [by right; left | by vm_compute]]. }
  assert (~ mentions ["SELL"; "SELLS"] s) as Ns by (intros H; apply Hs in H; done).
  destruct (contains "HOLD" (upper s) || contains "HOLDS" (upper s)) eqn:Eh.
  { split; [right; right; left; split_and!; [done | done | by apply Hh | done]
           | split; [by right; right | by vm_compute]]. }
  assert (~ mentions ["HOLD"; "HOLDS"] s) as Nh by (intros H; apply Hh in H; done).
  split; [right; right; right; by split_and! | split; [by left | by vm_compute]].
Qed.

(** ** The API key *)

Section ApiKey.
Variable API_KEY : string.

Lemma validate_loop_find (items : list (string * string)) :
  validate_loop API_KEY items =
  match List.find names_api_key items with
  | Some kv => eqs (snd kv) API_KEY
  | None => false
  end.
Proof.
  induction items as [|[k v] items IH]; simpl; [done |].
  unfold names_api_key at 1. simpl. by destruct (eqs (lower k) "x-api-key").
Qed.

Lemma find_first_match (pre post : list (string * string)) (kv : string * string) :
  Forall (fun x => names_api_key x = false) pre ->
  names_api_key kv = true ->
  List.find names_api_key (pre ++ kv :: post) = Some kv.
Proof.
  intros Hpre Hkv. induction Hpre as [|x pre Hx _ IH]; simpl.
  - by rewrite Hkv.
  - by rewrite Hx.
Qed.

Lemma validate_no_match (items : list (string * string)) :
  (forall k v, In (k, v) items -> lower k = "x-api-key" -> v <> API_KEY) ->
  validate_loop API_KEY items = false.
Proof.
  induction items as [|[k v] items IH]; simpl; intros H; [done |].
  destruct (eqs (lower k) "x-api-key") eqn:E.
  - apply eqs_false. apply (H k v); [by left | by apply eqs_true].
  - apply IH. intros k' v' Hin. apply H. by right.
Qed.

End ApiKey.

(** C10 ([validate_api_key]).  The key is valid exactly when the first header
    whose lower-cased name is "x-api-key" carries the configured key: the
    headers before it do not matter, those after it are never read, no such
    header means invalid, and any casing of the name is accepted. *)
Theorem api_key_read_from_first_matching_header (API_KEY : string) :
  (forall event,
     validate_api_key API_KEY event =
     match List.find names_api_key (headers_of event) with
     | Some kv => eqs (snd kv) API_KEY
     | None => false
     end)
  /\ (forall method pre k v post,
        Forall (fun x => lower (fst x) <> "x-api-key") pre ->
        lower k = "x-api-key" ->
        (validate_api_key API_KEY (mkEvent method (Some (pre ++ (k, v) :: post))) = true
         <-> v = API_KEY))
  /\ (forall event,
        Forall (fun x => lower (fst x) <> "x-api-key") (headers_of event) ->
        validate_api_key API_KEY event = false)
  /\ (forall method,
        validate_api_key API_KEY (mkEvent method (Some [("X-API-KEY", API_KEY)])) = true
        /\ validate_api_key API_KEY (mkEvent method (Some [("x-Api-Key", API_KEY)])) = true).
Proof.
  split_and!.
  - intros event. unfold validate_api_key. apply validate_loop_find.
  - intros method pre k v post Hpre Hk.
    unfold validate_api_key, headers_of. simpl.
    rewrite validate_loop_find, (find_first_match pre post (k, v)).
    + simpl. apply eqs_true.
    + eapply Forall_impl; [exact Hpre |]. intros x Hx. by apply eqs_false.
    + by apply eqs_true.
  - intros event Hall. unfold validate_api_key.
    apply validate_no_match. intros k v Hin Hk.
    rewrite Forall_forall in Hall. exfalso.
    apply (Hall (k, v)); [by apply list_elem_of_In | done].
  - intros method. unfold validate_api_key, headers_of. simpl.
    change (eqs (lower "X-API-KEY") "x-api-key") with true.
    change (eqs (lower "x-Api-Key") "x-api-key") with true.
    simpl. split; by apply eqs_true.
Qed.

Lemma api_key_read_from_first_matching_header_witness :
  validate_api_key "dev-api-key-123"
    (mkEvent (Some "GET")
       (Some ([("Host", "example.org")]
              ++ ("X-Api-Key", "dev-api-key-123") :: [("x-api-key", "other")]))) = true.
Proof.
  apply (proj1 (proj2 (api_key_read_from_first_matching_header "dev-api-key-123"))).
  - repeat constructor; simpl; discriminate.
  - reflexivity.
  - reflexivity.
Defined.

(** ** The handlers *)

(** C8 ([lambda_handler]).  A request that is not OPTIONS and has no
    "x-api-key" header with the configured key is answered 401 with the body
    [{"error": "Invalid API key"}], and the handler performs no operation at
    all before answering: no crawler, no strategy, no lookup. *)
Theorem invalid_key_answers_401_without_scraping
  (API_KEY : string) (event : lambda_event) :
  httpMethod event <> Some "OPTIONS" ->
  (forall k v, In (k, v) (headers_of event) -> lower k = "x-api-key" -> v <> API_KEY) ->
  exists resp,
    lambda_handler API_KEY event = Ret resp
    /\ statusCode resp = 401
    /\ body resp = Dumps [("error", JStr "Invalid API key")]
    /\ forall (W : Type) (h : world W) (w : W),
         calls h (lambda_handler API_KEY event) w = [].
Proof.
  intros Hm Hk.
  assert (is_options event = false) as Ho.
  { unfold is_options. destruct (httpMethod event) as [mth|]; [| done].
    apply eqs_false. intros ->. by apply Hm. }
  assert (validate_api_key API_KEY event = false) as Hv
    by (by apply validate_no_match).
  exists (create_response 401 (ErrorResponse "Invalid API key")).
  unfold lambda_handler. rewrite Ho, Hv. simpl. by split_and!.
Qed.

Lemma invalid_key_answers_401_without_scraping_witness :
  exists resp,
    lambda_handler "dev-api-key-123"
      (mkEvent (Some "GET") (Some [("X-Api-Key", "guess")])) = Ret resp
    /\ statusCode resp = 401
    /\ body resp = Dumps [("error", JStr "Invalid API key")]
    /\ forall (W : Type) (h : world W) (w : W),
         calls h (lambda_handler "dev-api-key-123"
                    (mkEvent (Some "GET") (Some [("X-Api-Key", "guess")]))) w = [].
Proof.
  apply invalid_key_answers_401_without_scraping.
  - simpl. discriminate.
  - simpl. intros k v [H | []] _. injection H as <- <-. discriminate.
Defined.

(** C9 ([lambda_handler], [cleanup_handler], [stats_handler]).  The
    recommendations handler answers OPTIONS with 200 and an empty body
    whatever the headers are.  The cleanup and the statistics handlers have no
    such branch: an OPTIONS request without the key is answered 401, and the
    cleanup handler answers one with the key by its usual message. *)
Theorem options_preflight_per_handler (API_KEY : string) :
  (forall hs,
     lambda_handler API_KEY (mkEvent (Some "OPTIONS") hs)
     = Ret (create_response 200 (PStr EmptyString)))
  /\ cleanup_handler API_KEY (mkEvent (Some "OPTIONS") (Some []))
     = Ret (create_response 401 (ErrorResponse "Invalid API key"))
  /\ stats_handler API_KEY (mkEvent (Some "OPTIONS") (Some []))
     = Ret (create_response 401 (ErrorResponse "Invalid API key"))
  /\ cleanup_handler API_KEY (mkEvent (Some "OPTIONS") (Some [("x-api-key", API_KEY)]))
     = Ret (create_response 200
              (MessageResponse "Docker container handles cleanup automatically")).
Proof.
  split_and!; try reflexivity.
  unfold cleanup_handler, validate_api_key, headers_of. simpl.
  change (eqs (lower "x-api-key") "x-api-key") with true. simpl.
  by rewrite (proj2 (eqs_true API_KEY API_KEY) eq_refl).
Qed.

(** ** The acquisition cascade *)

Lemma get_recommendations_exhausted {W : Type} (h : world W) (w : W) :
  exhausted h -> fst (run h get_recommendations w) = [].
Proof.
  intros Hx. unfold get_recommendations, try_except, try_bind, trigger. simpl.
  destruct (Hx w) as [Hs _].
  destruct (h _ Selenium w) as [[l | msg] w1]; simpl in *; [| done].
  subst l. simpl.
  destruct (Hx w1) as [_ Hr].
  destruct (h _ Requests w1) as [[l | msg] w2]; simpl in *; [| done].
  by subst l.
Qed.

(** C7 ([get_recommendations], [lambda_handler]).  When both strategies fail,
    [get_recommendations] returns the empty list (its result is a list in
    every environment: the exception of a strategy stops at its [except]),
    and the handler answers an authorised request 200 with no recommendation
    and [total_recommendations] 0. *)
Theorem exhausted_cascade_answers_200_empty
  {W : Type} (h : world W) (w : W) (API_KEY : string) (event : lambda_event) :
  exhausted h ->
  httpMethod event <> Some "OPTIONS" ->
  validate_api_key API_KEY event = true ->
  fst (run h get_recommendations w) = []
  /\ exists now,
       let resp := fst (run h (lambda_handler API_KEY event) w) in
       statusCode resp = 200
       /\ body resp = Dumps [("recommendations", JList []);
                             ("timestamp", JIso now);
                             ("total_recommendations", JInt 0)].
Proof.
  intros Hx Hm Hv. split; [by apply get_recommendations_exhausted |].
  assert (is_options event = false) as Ho.
  { unfold is_options. destruct (httpMethod event) as [mth|]; [| done].
    apply eqs_false. intros ->. by apply Hm. }
  unfold lambda_handler. rewrite Ho, Hv. simpl.
  destruct (h _ NewCrawler w) as [[] w0].
  unfold get_recommendations, try_except, try_bind, trigger. simpl.
  destruct (Hx w0) as [Hs _].
  destruct (h _ Selenium w0) as [[l | msg] w1]; simpl in *.
  - subst l. simpl. destruct (Hx w1) as [_ Hr].
    destruct (h _ Requests w1) as [[l | msg] w2]; simpl in *.
    + subst l. simpl. destruct (h _ Now w2) as [now w3]. by exists now.
    + destruct (h _ Now w2) as [now w3]. by exists now.
  - destruct (h _ Now w1) as [now w2]. by exists now.
Qed.

Lemma exhausted_cascade_answers_200_empty_witness :
  fst (run offline get_recommendations tt) = []
  /\ exists now,
       let resp :=
         fst (run offline
                (lambda_handler "dev-api-key-123"
                   (mkEvent (Some "GET") (Some [("X-Api-Key", "dev-api-key-123")])))
                tt) in
       statusCode resp = 200
       /\ body resp = Dumps [("recommendations", JList []);
                             ("timestamp", JIso now);
                             ("total_recommendations", JInt 0)].
Proof.
  apply (exhausted_cascade_answers_200_empty offline tt).
  - intros []. simpl. done.
  - simpl. discriminate.
  - reflexivity.
Defined.

(** ** Deduplication *)

Lemma fold_dedup_step (l u : list BrokerRecommendation) (s : gset (string * string)) :
  fst (fold_left dedup_step l (u, s)) = u ++ dedup_from s l.
Proof.
  revert u s. induction l as [|r l IH]; intros u s; simpl.
  - by rewrite app_nil_r.
  - case_bool_decide; [apply IH |].
    rewrite IH. by rewrite <- app_assoc.
Qed.

Lemma remove_duplicates_dedup_from (l : list BrokerRecommendation) :
  _remove_duplicates l = dedup_from ∅ l.
Proof. unfold _remove_duplicates. by rewrite fold_dedup_step. Qed.








(** ** What a group of a pattern captures *)

Lemma append_cons (x : ascii) (a b : string) :
  String x a +:+ b = String x (a +:+ b).
Proof. reflexivity. Qed.

Lemma append_nil_l (b : string) : EmptyString +:+ b = b.
Proof. reflexivity. Qed.

Lemma append_assoc (a b c : string) : (a +:+ b) +:+ c = a +:+ (b +:+ c).
Proof.
  induction a as [|x a IH]; [done |]. rewrite !append_cons. by f_equal.
Qed.

Lemma append_nil_r (a : string) : a +:+ EmptyString = a.
Proof. induction a as [|x a IH]; [done |]. rewrite append_cons. by f_equal. Qed.

Lemma len_append (a b : string) : len (a +:+ b) = len a + len b.
Proof.
  induction a as [|x a IH]; [done |]. rewrite append_cons. simpl. by f_equal.
Qed.

Lemma take_append (a b : string) : take (len (a +:+ b) - len b) (a +:+ b) = a.
Proof.
  rewrite len_append. replace (len a + len b - len b) with (len a) by lia.
  induction a as [|x a IH]; [by destruct b |].
  rewrite append_cons. simpl. by f_equal.
Qed.

Section Captures.
Context (ci : bool) (ok : regex -> bool) (G : string -> Prop).
Hypothesis ok_G : forall a w, ok a = true -> lang ci a w -> G w.

Local Abbreviation extends := (extends_by G).
Local Abbreviation sound := (sound_for ci G).

Lemma extends_refl (c : list (nat * string)) : extends [] c c.
Proof. exists []. split_and!; [done | constructor | intros i []]. Qed.

Lemma extends_trans (d1 d2 : list nat) (c0 c1 c2 : list (nat * string)) :
  extends d1 c0 c1 -> extends d2 c1 c2 -> extends (d1 ++ d2) c0 c2.
Proof.
  intros [n1 [-> [F1 I1]]] [n2 [-> [F2 I2]]].
  exists (n2 ++ n1). split_and!.
  - by rewrite <- app_assoc.
  - apply Forall_app. by split.
  - intros i Hi. rewrite map_app. apply in_or_app.
    apply in_app_or in Hi as [Hi | Hi]; [right; by apply I1 | left; by apply I2].
Qed.

Lemma extends_weaken (d d' : list nat) (c0 c1 : list (nat * string)) :
  (forall i, In i d' -> In i d) -> extends d c0 c1 -> extends d' c0 c1.
Proof.
  intros Hd [n [-> [F I]]]. exists n. split_and!; [done | done |].
  intros i Hi. by apply I, Hd.
Qed.

Lemma rep_loop_sound (a : regex) (g : bool) (lo : nat) (k : mst -> option mst) :
  sound a ->
  forall fuel cnt st res,
    rep_loop (m ci a) g lo k fuel cnt st = Some res ->
    exists st' ws,
      k st' = Some res
      /\ rest st = concat_all ws +:+ rest st'
      /\ Forall (lang ci a) ws
      /\ lo <= cnt + length ws
      /\ length ws <= fuel
      /\ extends (match ws with [] => [] | _ => definite a end)
                 (caps st) (caps st').
Proof.
  intros Ha.
  assert (forall cnt st res,
            (if Nat.leb lo cnt then k st else None) = Some res ->
            exists st' ws,
              k st' = Some res
              /\ rest st = concat_all ws +:+ rest st'
              /\ Forall (lang ci a) ws
              /\ lo <= cnt + length ws
              /\ length ws <= 0
              /\ extends (match ws with [] => [] | _ => definite a end)
                         (caps st) (caps st')) as Hstop.
  { intros cnt st res H. destruct (Nat.leb lo cnt) eqn:E; [| done].
    apply Nat.leb_le in E. exists st, []. simpl.
    split_and!; [done | done | constructor | lia | lia | apply extends_refl]. }
  induction fuel as [|f IH]; intros cnt st res H; simpl in H.
  - by apply Hstop.
  - assert (forall x,
              m ci a st (fun st' => rep_loop (m ci a) g lo k f (S cnt) st') = Some x ->
              x = res ->
              exists st' ws,
                k st' = Some res
                /\ rest st = concat_all ws +:+ rest st'
                /\ Forall (lang ci a) ws
                /\ lo <= cnt + length ws
                /\ length ws <= S f
                /\ extends (match ws with [] => [] | _ => definite a end)
                           (caps st) (caps st')) as Hmore.
    { intros x Hx ->. apply Ha in Hx as [st1 [w1 [H1 [R1 [L1 E1]]]]].
      apply IH in H1 as [st2 [ws [H2 [R2 [L2 [C2 [F2 E2]]]]]]].
      exists st2, (w1 :: ws). simpl. split_and!.
      - done.
      - by rewrite R1, R2, append_assoc.
      - by constructor.
      - lia.
      - lia.
      - eapply extends_weaken; [| exact (extends_trans _ _ _ _ _ E1 E2)].
        intros i Hi. apply in_or_app. by left. }
    assert (forall res',
              (if Nat.leb lo cnt then k st else None) = Some res' -> res' = res ->
              exists st' ws,
                k st' = Some res
                /\ rest st = concat_all ws +:+ rest st'
                /\ Forall (lang ci a) ws
                /\ lo <= cnt + length ws
                /\ length ws <= S f
                /\ extends (match ws with [] => [] | _ => definite a end)
                           (caps st) (caps st')) as Hstop'.
    { intros res' Hr ->. apply Hstop in Hr as [st' [ws Hr]].
      exists st', ws. destruct Hr as (? & ? & ? & ? & ? & ?).
      split_and!; try done. lia. }
    destruct g.
    + destruct (m ci a st _) as [x|] eqn:E.
      * injection H as H. by apply (Hmore x).
      * by eapply Hstop'.
    + destruct (if Nat.leb lo cnt then k st else None) as [x|] eqn:E.
      * injection H as H. by apply (Hstop' x).
      * by eapply Hmore.
Qed.

Lemma m_sound (r : regex) : groups_ok ok r = true -> sound r.
Proof.
  induction r as [| cs | a IHa b IHb | a IHa b IHb | g lo hi a IHa | i a IHa | | |];
    intros Hok st k res H; simpl in H, Hok.
  - exists st, EmptyString. split_and!; [done | done | constructor | apply extends_refl].
  - destruct (rest st) as [|c s'] eqn:Er; [done |].
    destruct (cset_mem ci cs c) eqn:Ec; [| done].
    exists (MSt (Some c) s' (caps st)), (String c EmptyString).
    split_and!; [done | done | by constructor | apply extends_refl].
  - apply andb_true_iff in Hok as [Ha Hb].
    apply (IHa Ha) in H as [st1 [w1 [H1 [R1 [L1 E1]]]]].
    apply (IHb Hb) in H1 as [st2 [w2 [H2 [R2 [L2 E2]]]]].
    exists st2, (w1 +:+ w2). split_and!.
    + done.
    + by rewrite R1, R2, append_assoc.
    + by constructor.
    + exact (extends_trans _ _ _ _ _ E1 E2).
  - apply andb_true_iff in Hok as [Ha Hb].
    destruct (m ci a st k) as [x|] eqn:E.
    + injection H as ->. apply (IHa Ha) in E as [st1 [w1 [H1 [R1 [L1 E1]]]]].
      exists st1, w1. split_and!; [done | done | by apply lang_alt_l |].
      eapply extends_weaken; [| exact E1]. intros i [].
    + apply (IHb Hb) in H as [st1 [w1 [H1 [R1 [L1 E1]]]]].
      exists st1, w1. split_and!; [done | done | by apply lang_alt_r |].
      eapply extends_weaken; [| exact E1]. intros i [].
  - apply (rep_loop_sound a g lo k (IHa Hok)) in H
      as [st1 [ws [H1 [R1 [L1 [C1 [F1 E1]]]]]]].
    exists st1, (concat_all ws). split_and!; [done | done | |].
    + constructor; [done | lia |]. intros h ->. done.
    + eapply extends_weaken; [| exact E1].
      destruct lo as [|lo]; [intros i [] |].
      destruct ws; [simpl in C1; lia | done].
  - apply andb_true_iff in Hok as [Ha Hg].
    apply (IHa Hg) in H as [st1 [w [H1 [R1 [L1 E1]]]]].
    eexists _, w. split_and!; [exact H1 | done | by constructor |].
    simpl. rewrite R1, take_append.
    destruct E1 as [new [-> [F I]]].
    exists ((i, w) :: new). split_and!; [done | | ].
    + constructor; [simpl; by eapply ok_G | done].
    + intros j [<- | Hj]; simpl; [by left | right; by apply I].
  - destruct (prev st); [done |].
    exists st, EmptyString. split_and!; [done | done | constructor | apply extends_refl].
  - destruct (at_eol st); [| done].
    exists st, EmptyString. split_and!; [done | done | constructor | apply extends_refl].
  - destruct (xorb _ _); [| done].
    exists st, EmptyString. split_and!; [done | done | constructor | apply extends_refl].
Qed.

Lemma match_here_caps (r : regex) (p : option ascii) (s : string) (pos : nat)
  (res : mres) :
  groups_ok ok r = true ->
  match_here ci r p s pos = Some res ->
  extends (definite r) [] (m_caps res).
Proof.
  intros Hok H. unfold match_here in H.
  destruct (m ci r (MSt p s []) Some) as [st|] eqn:E; [| done].
  injection H as <-. simpl.
  apply (m_sound r Hok) in E as [st1 [w [H1 [_ [_ E1]]]]].
  injection H1 as ->. exact E1.
Qed.

Lemma search_at_caps (r : regex) (s : string) (p : option ascii) (pos : nat)
  (res : mres) :
  groups_ok ok r = true ->
  search_at ci r p s pos = Some res ->
  extends (definite r) [] (m_caps res).
Proof.
  intros Hok. revert p pos. induction s as [|c s IH]; intros p pos H; simpl in H.
  - destruct (match_here ci r p EmptyString pos) eqn:E; [| done].
    injection H as ->. by eapply match_here_caps.
  - destruct (match_here ci r p (String c s) pos) eqn:E.
    + injection H as ->. by eapply match_here_caps.
    + by eapply IH.
Qed.

Lemma assoc_in (i : nat) (l : list (nat * string)) :
  In i (map fst l) -> exists s, assoc i l = Some s /\ In (i, s) l.
Proof.
  induction l as [|[j s] l IH]; simpl; [done |].
  intros Hi. destruct (Nat.eqb i j) eqn:E.
  - apply Nat.eqb_eq in E as ->. exists s. split; [done | by left].
  - destruct Hi as [-> | Hi]; [by rewrite Nat.eqb_refl in E |].
    destruct (IH Hi) as [s' [Hs Hin]]. exists s'. split; [done | by right].
Qed.

Lemma group_definite (r : regex) (text : string) (mo : mres) (i : nat) :
  groups_ok ok r = true ->
  In i (definite r) ->
  search ci r text = Some mo ->
  G (group i mo).
Proof.
  intros Hok Hi H. apply (search_at_caps r _ _ _ _ Hok) in H.
  destruct H as [new [E [F I]]]. rewrite app_nil_r in E.
  unfold group. rewrite E.
  destruct (assoc_in i new (I i Hi)) as [s [-> Hin]].
  rewrite List.Forall_forall in F. exact (F _ Hin).
Qed.

End Captures.

(** ** Numerals *)

Ltac by_cases_on_ascii c :=
  destruct c as [[] [] [] [] [] [] [] []]; vm_compute; try reflexivity; try discriminate.

Lemma digit_any_case (ci : bool) (c : ascii) :
  cset_mem ci CDigit c = true -> is_digit c = true.
Proof. destruct ci; by_cases_on_ascii c. Qed.

Lemma comma_any_case (ci : bool) (c : ascii) :
  cset_mem ci (CChr ",") c = true -> c = ","%char.
Proof. destruct ci; by_cases_on_ascii c. Qed.

Lemma dot_any_case (ci : bool) (c : ascii) :
  cset_mem ci (CChr ".") c = true -> c = "."%char.
Proof. destruct ci; by_cases_on_ascii c. Qed.

Lemma digit_not_dot (c : ascii) : is_digit c = true -> Ascii.eqb c "." = false.
Proof. by_cases_on_ascii c. Qed.

Lemma digit_not_comma (c : ascii) : is_digit c = true -> Ascii.eqb "," c = false.
Proof. by_cases_on_ascii c. Qed.

Lemma all_chars_append (p : ascii -> bool) (a b : string) :
  all_chars p (a +:+ b) = all_chars p a && all_chars p b.
Proof.
  induction a as [|x a IH]; [done |].
  rewrite append_cons. simpl. by rewrite IH, andb_assoc.
Qed.

Lemma uncomma_cons (c : ascii) (s : string) :
  uncomma (String c s) = if Ascii.eqb "," c then uncomma s else String c (uncomma s).
Proof. reflexivity. Qed.

Lemma split_dot_cons (c : ascii) (s : string) :
  split_dot (String c s) =
  if Ascii.eqb c "." then (EmptyString, Some s)
  else (String c (fst (split_dot s)), snd (split_dot s)).
Proof.
  change (split_dot (String c s))
    with (if Ascii.eqb c "." then (EmptyString, Some s)
          else let '(a, b) := split_dot s in (String c a, b)).
  by destruct (split_dot s).
Qed.

Lemma replace_aux_comma (s : string) (fuel : nat) :
  len s < fuel -> replace_aux fuel "," EmptyString s = uncomma s.
Proof.
  revert fuel. induction s as [|c s IH]; intros fuel Hf.
  - destruct fuel; [simpl in Hf; lia | done].
  - destruct fuel as [|f]; [lia |].
    change (len (String c s)) with (S (len s)) in Hf.
    change (replace_aux (S f) "," EmptyString (String c s))
      with (if Ascii.eqb "," c && true
            then EmptyString +:+ replace_aux f "," EmptyString s
            else String c (replace_aux f "," EmptyString s)).
    rewrite andb_true_r, append_nil_l, IH, uncomma_cons by lia. done.
Qed.

Lemma replace_comma (s : string) : replace "," EmptyString s = uncomma s.
Proof. unfold replace. apply replace_aux_comma. lia. Qed.

Lemma uncomma_append (a b : string) : uncomma (a +:+ b) = uncomma a +:+ uncomma b.
Proof.
  induction a as [|x a IH]; [done |].
  rewrite append_cons, !uncomma_cons. destruct (Ascii.eqb "," x); [done |].
  by rewrite append_cons, IH.
Qed.

Lemma uncomma_digits (d : string) : all_chars is_digit d = true -> uncomma d = d.
Proof.
  induction d as [|c d IH]; [done |].
  change (all_chars is_digit (String c d)) with (is_digit c && all_chars is_digit d).
  intros H. apply andb_true_iff in H as [Hc Hd].
  by rewrite uncomma_cons, (digit_not_comma c Hc), IH.
Qed.

Lemma split_dot_digits (d r : string) :
  all_chars is_digit d = true ->
  split_dot (d +:+ r) = (d +:+ fst (split_dot r), snd (split_dot r)).
Proof.
  induction d as [|c d IH]; intros H.
  - rewrite !append_nil_l. by destruct (split_dot r).
  - change (all_chars is_digit (String c d))
      with (is_digit c && all_chars is_digit d) in H.
    apply andb_true_iff in H as [Hc Hd].
    rewrite !append_cons, split_dot_cons, (digit_not_dot c Hc), (IH Hd). done.
Qed.

Lemma decimal_nonneg (ip fp : string) : (0 <= decimal ip fp)%Q.
Proof.
  unfold decimal. rewrite Qred_correct. unfold Qle. simpl. lia.
Qed.

Lemma float_nonneg (s : string) (q : Q) : float s = Some q -> (0 <= q)%Q.
Proof.
  unfold float. destruct (split_dot s) as [ip ofp].
  destruct (_ && _); [| done]. intros [= <-]. apply decimal_nonneg.
Qed.

(** Digits, then nothing or a dot and digits: [float] accepts. *)
Lemma float_digits (d : string) :
  all_chars is_digit d = true -> d <> EmptyString -> is_Some (float d).
Proof.
  intros Hd Hne. unfold float.
  rewrite <- (append_nil_r d) at 1. rewrite (split_dot_digits d _ Hd). simpl.
  rewrite !append_nil_r, Hd. simpl.
  destruct (eqs d EmptyString) eqn:E; [by apply eqs_true in E | by eexists].
Qed.

Lemma float_digits_dot_digits (d f : string) :
  all_chars is_digit d = true -> d <> EmptyString ->
  all_chars is_digit f = true ->
  is_Some (float (d +:+ String "." f)).
Proof.
  intros Hd Hne Hf. unfold float.
  rewrite (split_dot_digits d _ Hd), split_dot_cons.
  change (Ascii.eqb "." ".") with true. cbv iota beta. simpl fst. simpl snd.
  rewrite append_nil_r, Hd, Hf. simpl.
  destruct (eqs (d +:+ f) EmptyString) eqn:E; [| by eexists].
  apply eqs_true in E. destruct d; [done | discriminate].
Qed.

Lemma lang_digit_rep (ci g : bool) (lo : nat) (hi : option nat) (w : string) :
  lang ci (RRep g lo hi (RSet CDigit)) w ->
  all_chars is_digit w = true /\ lo <= len w.
Proof.
  intros H. inversion H as [| | | | | g' lo' hi' a ws Hws Hlo Hhi | | | |]; subst.
  clear H Hhi. revert lo Hlo.
  induction Hws as [|x ws Hx Hws IH]; intros lo Hlo.
  - simpl in *. split; [done | lia].
  - inversion Hx as [| cs c Hc | | | | | | | |]; subst.
    simpl. rewrite append_nil_l, (digit_any_case ci c Hc). simpl in Hlo.
    destruct (IH (pred lo)) as [Ha Hl]; [lia |]. split; [done | lia].
Qed.

Lemma nonempty_len (s : string) : 1 <= len s -> s <> EmptyString.
Proof. destruct s; simpl; [lia | done]. Qed.

(** What the numeral pattern reads is a numeral. *)
Lemma lang_num_numeral (ci : bool) (a : regex) (w : string) :
  is_num a = true -> lang ci a w -> numeral w.
Proof.
  intros Ha H. apply bool_decide_eq_true in Ha. subst a. unfold NUM in H.
  inversion H as [| | a b w1 w23 H1 H23 | | | | | | |]; subst. clear H.
  inversion H23 as [| | a b w2 w3 H2 H3 | | | | | | |]; subst. clear H23.
  apply lang_digit_rep in H1 as [D1 L1].
  (* the comma groups *)
  assert (all_chars is_digit (uncomma w2) = true) as D2.
  { inversion H2 as [| | | | | g lo hi a ws Hws _ _ | | | |]; subst. clear H2.
    induction Hws as [|x ws Hx Hws IH]; [done |].
    simpl. rewrite uncomma_append, all_chars_append, IH, andb_true_r.
    inversion Hx as [| | a b wc wd Hc Hd | | | | | | |]; subst.
    inversion Hc as [| cs c Hcc | | | | | | | |]; subst.
    apply comma_any_case in Hcc as ->.
    apply lang_digit_rep in Hd as [Dd _].
    rewrite append_cons, append_nil_l, uncomma_cons.
    change (Ascii.eqb "," ",") with true. cbv iota. by rewrite uncomma_digits. }
  (* the fraction *)
  assert (w3 = EmptyString
          \/ exists f, w3 = String "." f /\ all_chars is_digit f = true) as F.
  { inversion H3 as [| | | | | g lo hi a ws Hws _ Hhi | | | |]; subst. clear H3.
    specialize (Hhi 1 eq_refl).
    destruct ws as [|x [|y ws]]; [by left | | simpl in Hhi; lia].
    right. apply Forall_cons in Hws as [Hx _].
    inversion Hx as [| | a b wc wd Hc Hd | | | | | | |]; subst.
    inversion Hc as [| cs c Hcc | | | | | | | |]; subst.
    apply dot_any_case in Hcc as ->.
    apply lang_digit_rep in Hd as [Dd _].
    exists wd. simpl. by rewrite append_nil_r, append_cons, append_nil_l. }
  unfold numeral. rewrite replace_comma, !uncomma_append, (uncomma_digits w1 D1).
  assert (all_chars is_digit (w1 +:+ uncomma w2) = true) as D12
    by (by rewrite all_chars_append, D1, D2).
  assert (w1 +:+ uncomma w2 <> EmptyString) as N12.
  { apply nonempty_len. rewrite len_append. lia. }
  rewrite <- append_assoc.
  destruct F as [-> | [f [-> Df]]].
  - simpl. rewrite append_nil_r.
    destruct (float_digits _ D12 N12) as [q Hq].
    exists q. split; [done | by eapply float_nonneg].
  - assert (uncomma (String "." f) = String "." f) as ->.
    { rewrite uncomma_cons. change (Ascii.eqb "," ".") with false.
      cbv iota. by rewrite uncomma_digits. }
    destruct (float_digits_dot_digits _ f D12 N12 Df) as [q Hq].
    exists q. split; [done | by eapply float_nonneg].
Qed.

Lemma price_pattern_group (ci : bool) (groups : list nat) (p text : string)
  (mo : mres) (i : nat) :
  price_pattern groups p = true ->
  In i groups ->
  search ci (re_compile p) text = Some mo ->
  exists q, group_float i mo = Some q /\ (0 <= q)%Q.
Proof.
  intros Hp Hi H. apply andb_true_iff in Hp as [Hok Hdef].
  rewrite forallb_forall in Hdef. specialize (Hdef i Hi).
  apply existsb_exists in Hdef as [j [Hj E]]. apply Nat.eqb_eq in E as <-.
  exact (group_definite ci is_num numeral (lang_num_numeral ci)
           (re_compile p) text mo i Hok Hj H).
Qed.

(** ** The price cascade never raises and never goes below zero *)

Arguments re_compile : simpl never.
Arguments search : simpl never.
Arguments finditer : simpl never.
Arguments findall1 : simpl never.
Arguments findall2 : simpl never.

Lemma pmin_nonneg (a b : Q) : (0 <= a)%Q -> (0 <= b)%Q -> (0 <= pmin a b)%Q.
Proof. intros. unfold pmin. by destruct (qlt b a). Qed.

Lemma pmax_nonneg (a b : Q) : (0 <= a)%Q -> (0 <= b)%Q -> (0 <= pmax a b)%Q.
Proof. intros. unfold pmax. by destruct (qlt a b). Qed.

Lemma insert_sorted_Forall (P : Q -> Prop) (x : Q) (l : list Q) :
  P x -> Forall P l -> Forall P (insert_sorted x l).
Proof.
  intros Hx Hl. induction Hl as [|y l Hy Hl IH]; simpl.
  - by repeat constructor.
  - destruct (qle x y); repeat constructor; done.
Qed.

Lemma sort_Forall (P : Q -> Prop) (l : list Q) : Forall P l -> Forall P (sort l).
Proof.
  induction 1 as [|x l Hx Hl IH]; simpl; [constructor |].
  by apply insert_sorted_Forall.
Qed.

Lemma first_Forall (P : Q -> Prop) (l : list Q) : P 0%Q -> Forall P l -> P (first l).
Proof. intros H0 Hl. destruct Hl; simpl; done. Qed.

Lemma final_Forall (P : Q -> Prop) (l : list Q) : P 0%Q -> Forall P l -> P (final l).
Proof.
  intros H0 Hl. unfold final. induction Hl as [|x l Hx Hl IH]; simpl; [done |].
  destruct l; [done | exact IH].
Qed.

Lemma in_window_Forall (lo hi : Q) (numerals : list string) :
  Forall (fun x => within lo hi x = true) (in_window lo hi numerals).
Proof.
  induction numerals as [|p ps IH]; simpl; [constructor |].
  destruct (float (replace "," EmptyString p)) as [v|]; [| done].
  destruct (within lo hi v) eqn:E; [by constructor | done].
Qed.

Lemma within_nonneg (lo hi x : Q) : (0 <= lo)%Q -> within lo hi x = true -> (0 <= x)%Q.
Proof.
  intros Hlo H. apply andb_true_iff in H as [H _].
  apply Qle_bool_iff in H. by eapply Qle_trans.
Qed.

Lemma in_window_nonneg (lo hi : Q) (numerals : list string) :
  (0 <= lo)%Q -> Forall (fun x => (0 <= x)%Q) (in_window lo hi numerals).
Proof.
  intros Hlo. eapply Forall_impl; [apply in_window_Forall |].
  intros x Hx. exact (within_nonneg lo hi x Hlo Hx).
Qed.

Lemma keyword_rule_total (p text : string) (slot : Q) :
  price_pattern [1] p = true -> (0 <= slot)%Q ->
  exists q, keyword_rule p text slot = Some q /\ (0 <= q)%Q.
Proof.
  intros Hp Hs. unfold keyword_rule.
  destruct (search true (re_compile p) text) as [mo|] eqn:E.
  - apply (price_pattern_group true [1] p text mo 1 Hp); [by left | done].
  - by exists slot.
Qed.

Lemma keyword_rule_if0_total (p text : string) (slot : Q) :
  price_pattern [1] p = true -> (0 <= slot)%Q ->
  exists q, keyword_rule_if0 p text slot = Some q /\ (0 <= q)%Q.
Proof.
  intros Hp Hs. unfold keyword_rule_if0.
  destruct (is0 slot); [by apply keyword_rule_total | by exists slot].
Qed.

Ltac pattern_fact := vm_compute; reflexivity.

(** The value of group [i] of the match [E] of a price pattern with two
    groups. *)
Ltac read_group E i q Eq Hq :=
  match type of E with
  | search ?ci (re_compile ?p) ?text = Some ?mo =>
      destruct (price_pattern_group ci [1; 2] p text mo i) as [q [Eq Hq]];
      [pattern_fact | simpl; tauto | exact E |]
  end.

Lemma target_rules_total (text : string) :
  exists t, target_rules text = Some t /\ (0 <= t)%Q.
Proof.
  unfold target_rules.
  edestruct (keyword_rule_total) as [t1 [-> H1]];
    [| | simpl; edestruct (keyword_rule_if0_total) as [t2 [-> H2]];
         [| | simpl; edestruct (keyword_rule_if0_total) as [t3 [-> H3]];
              [| | simpl; apply keyword_rule_if0_total]]];
    try pattern_fact; try done.
Qed.

Lemma current_rules_total (text : string) :
  exists c, current_rules text = Some c /\ (0 <= c)%Q.
Proof.
  unfold current_rules.
  edestruct (keyword_rule_total) as [t1 [-> H1]];
    [| | simpl; edestruct (keyword_rule_if0_total) as [t2 [-> H2]];
         [| | simpl; apply keyword_rule_if0_total]];
    try pattern_fact; try done.
Qed.

Lemma keyword_rules_total (text : string) :
  exists st, keyword_rules text = Some st /\ nonneg st.
Proof.
  unfold keyword_rules.
  destruct (target_rules_total text) as [t [-> Ht]].
  destruct (current_rules_total text) as [c [-> Hc]].
  simpl. by exists (c, t).
Qed.

Lemma range_rule_total (text : string) (st : slots) :
  nonneg st -> exists st', range_rule text st = Some st' /\ nonneg st'.
Proof.
  intros [Hc Ht]. destruct st as [c t]. simpl in Hc, Ht. unfold range_rule.
  destruct (is0 c || is0 t); [| by exists (c, t)].
  destruct (search true _ text) as [mo|] eqn:E; [| by exists (c, t)].
  read_group E 1 p1 E1 H1. read_group E 2 p2 E2 H2. rewrite E1, E2.
  simpl. eexists. split; [done |].
  split; simpl; [destruct (is0 c) | destruct (is0 t)];
    auto using pmin_nonneg, pmax_nonneg.
Qed.

Lemma sorted_pair_nonneg (c t : Q) (l : list Q) :
  (0 <= c)%Q -> (0 <= t)%Q -> Forall (fun x => (0 <= x)%Q) l ->
  nonneg (if is0 c then first (sort l) else c, if is0 t then final (sort l) else t).
Proof.
  intros Hc Ht Hl. split; simpl.
  - destruct (is0 c); [| done]. apply first_Forall; [done | by apply sort_Forall].
  - destruct (is0 t); [| done]. apply final_Forall; [done | by apply sort_Forall].
Qed.

Lemma rs_rule_nonneg (text : string) (st : slots) :
  nonneg st -> nonneg (rs_rule text st).
Proof.
  intros [Hc Ht]. destruct st as [c t]. simpl in Hc, Ht. unfold rs_rule.
  destruct (is0 c || is0 t); [| done].
  pose proof (in_window_nonneg 10 50000
                (findall1 true (re_compile "Rs\.?\s*(\d+(?:,\d{3})*(?:\.\d+)?)") text)
                ltac:(done)) as Hl.
  fold (rs_prices text) in Hl.
  destruct (Nat.leb 2 (length (rs_prices text))); [by apply sorted_pair_nonneg |].
  destruct (Nat.eqb (length (rs_prices text)) 1); [| done].
  split; simpl; [done |]. destruct (is0 t); [| done]. by apply first_Forall.
Qed.

Lemma buy_target_rule_total (text : string) (st : slots) :
  nonneg st -> exists st', buy_target_rule text st = Some st' /\ nonneg st'.
Proof.
  intros [Hc Ht]. destruct st as [c t]. simpl in Hc, Ht. unfold buy_target_rule.
  destruct (is0 c || is0 t); [| by exists (c, t)].
  destruct (search true _ text) as [mo|] eqn:E; [| by exists (c, t)].
  read_group E 1 p1 E1 H1. read_group E 2 p2 E2 H2.
  destruct (is0 c), (is0 t); rewrite ?E1, ?E2; simpl; eexists; by split.
Qed.

Lemma bracket_rule_total (text : string) (st : slots) :
  nonneg st -> exists st', bracket_rule text st = Some st' /\ nonneg st'.
Proof.
  intros [Hc Ht]. destruct st as [c t]. simpl in Hc, Ht. unfold bracket_rule.
  destruct (is0 c || is0 t); [| by exists (c, t)].
  destruct (search false _ text) as [mo|] eqn:E; [| by exists (c, t)].
  read_group E 1 p1 E1 H1. read_group E 2 p2 E2 H2. rewrite E1, E2.
  simpl. destruct (within 10 50000 p1 && within 10 50000 p2); [| by exists (c, t)].
  eexists. split; [done |].
  split; simpl; [destruct (is0 c) | destruct (is0 t)];
    auto using pmin_nonneg, pmax_nonneg.
Qed.

Lemma number_pair_loop_nonneg (pairs : list (string * string)) (st : slots) :
  nonneg st -> nonneg (number_pair_loop pairs st).
Proof.
  intros Hst. induction pairs as [|[a b] pairs IH]; simpl; [done |].
  destruct (float a) as [p1|] eqn:E1; [| done].
  destruct (float b) as [p2|] eqn:E2; [| done].
  destruct (within 50 50000 p1 && within 50 50000 p2); [| done].
  destruct (qlt _ _); [| done].
  destruct st as [c t]. destruct Hst as [Hc Ht]. simpl in Hc, Ht.
  apply float_nonneg in E1, E2.
  split; simpl; [destruct (is0 c) | destruct (is0 t)];
    auto using pmin_nonneg, pmax_nonneg.
Qed.

Lemma number_pair_rule_nonneg (text : string) (st : slots) :
  nonneg st -> nonneg (number_pair_rule text st).
Proof.
  intros Hst. destruct st as [c t]. unfold number_pair_rule.
  destruct (is0 c || is0 t); [| done]. by apply number_pair_loop_nonneg.
Qed.

Lemma standalone_rule_nonneg (text : string) (st : slots) :
  nonneg st -> nonneg (standalone_rule text st).
Proof.
  intros [Hc Ht]. destruct st as [c t]. simpl in Hc, Ht. unfold standalone_rule.
  destruct (is0 c || is0 t); [| done].
  destruct (Nat.leb 2 _); [| done].
  apply sorted_pair_nonneg; [done | done |]. by apply in_window_nonneg.
Qed.

Lemma before_rs_rule_total (text : string) :
  exists st, before_rs_rule text = Some st /\ nonneg st.
Proof.
  unfold before_rs_rule.
  destruct (keyword_rules_total text) as [st [-> Hst]]. simpl.
  by apply range_rule_total.
Qed.

Lemma after_rs_rule_total (text : string) (st : slots) :
  nonneg st -> exists st', after_rs_rule text st = Some st' /\ nonneg st'.
Proof.
  intros Hst. unfold after_rs_rule.
  destruct (buy_target_rule_total text st Hst) as [st1 [-> H1]]. simpl.
  destruct (bracket_rule_total text st1 H1) as [st2 [-> H2]]. simpl.
  eexists. split; [done |].
  by apply standalone_rule_nonneg, number_pair_rule_nonneg.
Qed.

(** C5 ([_extract_prices]).  On every text the price extractor returns a pair
    (no [float] call raises), and neither the current price nor the target
    price is negative. *)
Theorem prices_are_never_negative (text : string) :
  exists current_price target_price,
    _extract_prices text = Some (current_price, target_price)
    /\ (0 <= current_price)%Q /\ (0 <= target_price)%Q.
Proof.
  unfold _extract_prices.
  destruct (before_rs_rule_total text) as [st [-> Hst]]. simpl.
  destruct (after_rs_rule_total text (rs_rule text st)) as [[c t] [-> [Hc Ht]]];
    [by apply rs_rule_nonneg |].
  by exists c, t.
Qed.

(** ** The unanchored [Rs] rule *)









Lemma keeps_refl (st : slots) : keeps st st.
Proof. by split. Qed.

Lemma keeps_trans (a b c : slots) : keeps a b -> keeps b c -> keeps a c.
Proof.
  intros [H1 H2] [H3 H4]. split; intros H.
  - rewrite <- (H1 H). apply H3. by rewrite (H1 H).
  - rewrite <- (H2 H). apply H4. by rewrite (H2 H).
Qed.

Lemma keeps_guarded (c t x y : Q) :
  keeps (c, t) (if is0 c then x else c, if is0 t then y else t).
Proof. split; simpl; intros ->; done. Qed.

Lemma rs_rule_keeps (text : string) (st : slots) : keeps st (rs_rule text st).
Proof.
  destruct st as [c t]. unfold rs_rule.
  destruct (is0 c || is0 t); [| apply keeps_refl].
  destruct (Nat.leb 2 _); [apply keeps_guarded |].
  destruct (Nat.eqb _ 1); [| apply keeps_refl].
  split; simpl; [done | by intros ->].
Qed.

Lemma buy_target_rule_keeps (text : string) (st st' : slots) :
  buy_target_rule text st = Some st' -> keeps st st'.
Proof.
  destruct st as [c t]. unfold buy_target_rule.
  destruct (is0 c || is0 t); [| intros [= <-]; apply keeps_refl].
  destruct (search true _ text) as [mo|]; [| intros [= <-]; apply keeps_refl].
  destruct (is0 c) eqn:Ec, (is0 t) eqn:Et;
    destruct (group_float 1 mo), (group_float 2 mo); simpl; try done;
    intros [= <-]; split; simpl; congruence.
Qed.

Lemma bracket_rule_keeps (text : string) (st st' : slots) :
  bracket_rule text st = Some st' -> keeps st st'.
Proof.
  destruct st as [c t]. unfold bracket_rule.
  destruct (is0 c || is0 t); [| intros [= <-]; apply keeps_refl].
  destruct (search false _ text) as [mo|]; [| intros [= <-]; apply keeps_refl].
  destruct (group_float 1 mo); simpl; [| done].
  destruct (group_float 2 mo); simpl; [| done].
  destruct (_ && _); intros [= <-]; [apply keeps_guarded | apply keeps_refl].
Qed.

Lemma number_pair_rule_keeps (text : string) (st : slots) :
  keeps st (number_pair_rule text st).
Proof.
  destruct st as [c t]. unfold number_pair_rule.
  destruct (is0 c || is0 t); [| apply keeps_refl].
  induction (findall2 false _ text) as [|[a b] pairs IH]; simpl; [apply keeps_refl |].
  destruct (float a); [| done]. destruct (float b); [| done].
  destruct (_ && _); [| done]. destruct (qlt _ _); [apply keeps_guarded | done].
Qed.

Lemma standalone_rule_keeps (text : string) (st : slots) :
  keeps st (standalone_rule text st).
Proof.
  destruct st as [c t]. unfold standalone_rule.
  destruct (is0 c || is0 t); [| apply keeps_refl].
  destruct (Nat.leb 2 _); [apply keeps_guarded | apply keeps_refl].
Qed.

Lemma after_rs_rule_keeps (text : string) (st st' : slots) :
  after_rs_rule text st = Some st' -> keeps st st'.
Proof.
  unfold after_rs_rule.
  destruct (buy_target_rule text st) as [st1|] eqn:E1; simpl; [| done].
  destruct (bracket_rule text st1) as [st2|] eqn:E2; simpl; [| done].
  intros [= <-].
  eapply keeps_trans; [by eapply buy_target_rule_keeps |].
  eapply keeps_trans; [by eapply bracket_rule_keeps |].
  eapply keeps_trans; [apply number_pair_rule_keeps | apply standalone_rule_keeps].
Qed.













(** ** The end-to-end scenario of the specification *)

Lemma find_all_text_only (f : node -> bool) (e : elem) (n : string)
  (a : list (string * string)) (s : string) :
  node_of e = Tag n a [NavigableString s] -> find_all f e = [].
Proof. intros H. unfold find_all. by rewrite H. Qed.

Lemma get_text_text_only (n : string) (a : list (string * string)) (s : string) :
  get_text (Tag n a [NavigableString s]) = s.
Proof.
  reflexivity.
Qed.

Lemma scenario_company :
  first_some (fun pattern =>
                first_some cleaned_if_valid
                           (findall1 false (re_compile pattern) scenario_text))
             company_patterns
  = Some "Reliance Industries".
Proof. vm_compute. reflexivity. Qed.

Lemma scenario_company_valid : _is_valid_company_name "Reliance Industries" = true.
Proof. vm_compute. reflexivity. Qed.

Lemma scenario_verdict : _extract_recommendation scenario_text = "BUY".
Proof. vm_compute. reflexivity. Qed.

Lemma scenario_broker : _extract_broker_name scenario_text = "Motilal".
Proof. vm_compute. reflexivity. Qed.

Lemma scenario_prices : _extract_prices scenario_text = Some (2500%Q, 3000%Q).
Proof. vm_compute. reflexivity. Qed.

Lemma scenario_company_name (e : elem) (n : string) (a : list (string * string)) :
  node_of e = Tag n a [NavigableString scenario_text] ->
  _extract_company_name e = "Reliance Industries".
Proof.
  intros H. unfold _extract_company_name.
  rewrite !(find_all_text_only _ e n a scenario_text H).
  cbn [first_some]. rewrite H, get_text_text_only, scenario_company. done.
Qed.

Lemma scenario_html_prices (e : elem) (n : string) (a : list (string * string)) :
  node_of e = Tag n a [NavigableString scenario_text] ->
  _extract_prices_from_html e = (0%Q, 0%Q).
Proof.
  intros H. unfold _extract_prices_from_html.
  rewrite !(find_all_text_only _ e n a scenario_text H). reflexivity.
Qed.

Lemma scenario_container_prices (e : elem) (n : string) (a : list (string * string)) :
  node_of e = Tag n a [NavigableString scenario_text] ->
  container_prices e scenario_text = Some (2500%Q, 3000%Q).
Proof.
  intros H. unfold container_prices.
  rewrite (scenario_html_prices e n a H).
  change (is0 (fst (0%Q, 0%Q)) || is0 (snd (0%Q, 0%Q))) with true.
  cbv iota. unfold search_elements. cbn [surrounding_loop].
  rewrite H, get_text_text_only, scenario_prices. reflexivity.
Qed.

(** C1 ([_extract_recommendation_from_container]).  For a container whose
    only content is the text of the scenario, wherever it stands in the page,
    the function reads the clock once and returns a record with the company
    "Reliance Industries", the verdict "BUY", the target price 3000.0 and the
    current price 2500.0, as the specification says, and with the broker
    "Motilal": the "Research by" pattern stops the name at the first
    whitespace.  The list of known brokers, which the function consults only
    when that pattern finds nothing, would have given "Motilal Oswal". *)
Theorem scenario_container_record (container : elem) (name : string)
  (attrs : list (string * string)) :
  node_of container = Tag name attrs [NavigableString scenario_text] ->
  _extract_recommendation_from_container container
  = Vis Now (fun now =>
      Ret (Some (mkRec "Motilal" "Reliance Industries" "BUY" 3000 2500 now)))
  /\ research_by scenario_text = Some "Motilal"
  /\ known_broker scenario_text = Some "Motilal Oswal".
Proof.
  intros H. split; [| split; vm_compute; reflexivity].
  unfold _extract_recommendation_from_container.
  rewrite (scenario_company_name container name attrs H).
  rewrite H, get_text_text_only.
  rewrite scenario_company_valid, scenario_verdict, scenario_broker.
  rewrite (scenario_container_prices container name attrs H).
  reflexivity.
Qed.

Lemma scenario_container_record_witness :
  _extract_recommendation_from_container
    (Elem (Tag "[document]" []
             [Tag "div" [("class", "stock-item")] [NavigableString scenario_text]])
          [0])
  = Vis Now (fun now =>
      Ret (Some (mkRec "Motilal" "Reliance Industries" "BUY" 3000 2500 now))).
Proof.
  exact (proj1 (scenario_container_record
                  (Elem (Tag "[document]" []
                           [Tag "div" [("class", "stock-item")]
                                [NavigableString scenario_text]])
                        [0])
                  "div" [("class", "stock-item")] eq_refl)).
Defined.

(** ** What the parser owes to the page and what to its environment *)

Lemma leaf_run {W A : Type} (h : world W) (p : io A) (w : W) :
  leaf p (fst (run h p w)).
Proof.
  revert w. induction p as [a | X e k IH]; intros w; simpl.
  - done.
  - destruct (h X e w) as [x w']. exists x. apply IH.
Qed.

Lemma leaf_ret_inv {A : Type} (a b : A) : leaf (Ret a) b -> b = a.
Proof. done. Qed.

Lemma leaf_bind_inv {A B : Type} (p : io A) (f : A -> io B) (b : B) :
  leaf (p ≫= f) b -> exists a, leaf p a /\ leaf (f a) b.
Proof.
  induction p as [a | X e k IH]; intros H.
  - exists a. split; [done | exact H].
  - destruct H as [x Hx]. destruct (IH x Hx) as [a [Ha Hb]].
    exists a. split; [by exists x | done].
Qed.

Lemma leaf_trigger_bind_inv {X B : Type} (e : event X) (f : X -> io B) (b : B) :
  leaf (trigger e ≫= f) b -> exists x, leaf (f x) b.
Proof.
  intros H. apply leaf_bind_inv in H as [x [_ H]]. by exists x.
Qed.

Lemma agree_ret {A : Type} (R : A -> A -> Prop) (a1 a2 : A) :
  R a1 a2 -> agree R (Ret a1) (Ret a2).
Proof.
  intros H x1 x2 H1 H2.
  apply leaf_ret_inv in H1, H2. by subst.
Qed.

Lemma agree_bind {A B : Type} (Q : A -> A -> Prop) (R : B -> B -> Prop)
  (p1 p2 : io A) (f1 f2 : A -> io B) :
  agree Q p1 p2 ->
  (forall a1 a2, Q a1 a2 -> agree R (f1 a1) (f2 a2)) ->
  agree R (p1 ≫= f1) (p2 ≫= f2).
Proof.
  intros Hp Hf b1 b2 H1 H2.
  apply leaf_bind_inv in H1 as [a1 [L1 M1]].
  apply leaf_bind_inv in H2 as [a2 [L2 M2]].
  exact (Hf a1 a2 (Hp a1 a2 L1 L2) b1 b2 M1 M2).
Qed.

Lemma agree_fold {A S : Type} (Q : S -> S -> Prop) (f : S -> A -> io S)
  (l : list A) :
  (forall x s1 s2, Q s1 s2 -> agree Q (f s1 x) (f s2 x)) ->
  forall s1 s2, Q s1 s2 -> agree Q (io_fold f l s1) (io_fold f l s2).
Proof.
  intros Hf. induction l as [|x l IH]; intros s1 s2 Hs; simpl.
  - by apply agree_ret.
  - eapply agree_bind; [by apply Hf | exact IH].
Qed.

Lemma core_dedup_key (r1 r2 : BrokerRecommendation) :
  core r1 = core r2 -> dedup_key r1 = dedup_key r2.
Proof. unfold core, dedup_key. intros [= -> -> _ _]. done. Qed.

Lemma core_company (r1 r2 : BrokerRecommendation) :
  core r1 = core r2 -> company_name r1 = company_name r2.
Proof. unfold core. by intros [= -> _ _ _]. Qed.

Lemma agree_fold_in {A S : Type} (Q : S -> S -> Prop) (f : S -> A -> io S)
  (l : list A) :
  (forall x, In x l -> forall s1 s2, Q s1 s2 -> agree Q (f s1 x) (f s2 x)) ->
  forall s1 s2, Q s1 s2 -> agree Q (io_fold f l s1) (io_fold f l s2).
Proof.
  induction l as [|x l IH]; intros Hf s1 s2 Hs; simpl.
  - by apply agree_ret.
  - eapply agree_bind; [apply Hf; [by left | done] |].
    intros t1 t2 Ht. apply IH; [| done]. intros y Hy. apply Hf. by right.
Qed.

Section PageDecides.
Context (J : JsonLib) (soup : node).

Local Abbreviation same := (same_up_to_lookup soup).

Lemma same_by_page (r1 r2 : BrokerRecommendation) :
  core r1 = core r2 -> current_price r1 = current_price r2 -> same r1 r2.
Proof. intros Hc Hp. split; [done | by left]. Qed.

Lemma add_record_same (s1 s2 : pstate) (r1 r2 : BrokerRecommendation) :
  same_state soup s1 s2 -> same r1 r2 ->
  same_state soup (add_record s1 r1) (add_record s2 r2).
Proof.
  intros [Hl Hs] Hr. unfold add_record.
  rewrite (core_dedup_key r1 r2 (proj1 Hr)), Hs.
  case_bool_decide; [by split |]. split; simpl; [| done].
  apply Forall2_app; [done |]. constructor; [done | constructor].
Qed.

Lemma dedup_from_same (l1 l2 : list BrokerRecommendation)
  (s : gset (string * string)) :
  Forall2 same l1 l2 -> Forall2 same (dedup_from s l1) (dedup_from s l2).
Proof.
  intros H. revert s. induction H as [| r1 r2 l1 l2 Hr Hl IH]; intros s; simpl;
    [constructor |].
  rewrite (core_dedup_key r1 r2 (proj1 Hr)).
  case_bool_decide; [apply IH | constructor; [done | apply IH]].
Qed.

(** The builders.  A container of the page gives the same record in two runs
    but for the date, and for the current price when the container has none:
    only then is the lookup run. *)
Lemma container_record_same (container : elem) :
  In container (containers_of soup) ->
  agree (option_Forall2 same)
        (_extract_recommendation_from_container container)
        (_extract_recommendation_from_container container).
Proof.
  intros Hin. unfold _extract_recommendation_from_container.
  destruct (_ || _); [apply agree_ret; constructor |].
  destruct (eqs (_extract_recommendation _) EmptyString);
    [apply agree_ret; constructor |].
  destruct (container_prices _ _) as [[c t]|] eqn:Ep;
    [| apply agree_ret; constructor].
  intros o1 o2 H1 H2.
  apply leaf_bind_inv in H1 as [c1 [L1 H1]].
  apply leaf_bind_inv in H2 as [c2 [L2 H2]].
  apply leaf_trigger_bind_inv in H1 as [n1 H1].
  apply leaf_trigger_bind_inv in H2 as [n2 H2].
  apply leaf_ret_inv in H1, H2. subst o1 o2. constructor.
  split; [done |]. simpl.
  destruct (is0 c && negb (eqs (_extract_company_name container) EmptyString))
    eqn:Eg.
  - right. apply andb_true_iff in Eg as [Eg _].
    exists container, c, t. by split_and!.
  - left. apply leaf_ret_inv in L1, L2. congruence.
Qed.

Lemma context_record_same (company_name context_text : string) :
  agree (option_Forall2 same)
        (_extract_recommendation_from_context company_name context_text)
        (_extract_recommendation_from_context company_name context_text).
Proof.
  unfold _extract_recommendation_from_context.
  destruct (negb _); [apply agree_ret; constructor |].
  destruct (eqs _ EmptyString); [apply agree_ret; constructor |].
  destruct (_extract_prices _) as [[c t]|]; [| apply agree_ret; constructor].
  intros o1 o2 H1 H2.
  apply leaf_trigger_bind_inv in H1 as [n1 H1].
  apply leaf_trigger_bind_inv in H2 as [n2 H2].
  apply leaf_ret_inv in H1, H2. subst o1 o2. constructor. by apply same_by_page.
Qed.

Lemma text_record_same (text : string) :
  agree (option_Forall2 same) (_extract_from_text text) (_extract_from_text text).
Proof.
  unfold _extract_from_text.
  destruct (first_some _ _) as [[cn r]|]; [| apply agree_ret; constructor].
  intros o1 o2 H1 H2.
  apply leaf_trigger_bind_inv in H1 as [n1 H1].
  apply leaf_trigger_bind_inv in H2 as [n2 H2].
  apply leaf_ret_inv in H1, H2. subst o1 o2. constructor. by apply same_by_page.
Qed.

Lemma json_records_same (data : list (string * jvalue J)) :
  agree (Forall2 same) (_extract_from_json_data J data)
        (_extract_from_json_data J data).
Proof.
  unfold _extract_from_json_data.
  destruct (_ && _); [| apply agree_ret; constructor].
  intros o1 o2 H1 H2.
  apply leaf_trigger_bind_inv in H1 as [n1 H1].
  apply leaf_trigger_bind_inv in H2 as [n2 H2].
  apply leaf_ret_inv in H1, H2. subst o1 o2.
  constructor; [by apply same_by_page | constructor].
Qed.

Lemma json_script_step_same (script : elem) (l1 l2 : list BrokerRecommendation) :
  Forall2 same l1 l2 ->
  agree (Forall2 same) (json_script_step J l1 script) (json_script_step J l2 script).
Proof.
  intros Hl. unfold json_script_step.
  destruct (dot_string _) as [content|]; [| by apply agree_ret].
  destruct (_ && _); [| by apply agree_ret].
  apply agree_fold; [| done].
  intros json_str s1 s2 Hs.
  destruct (json_loads J json_str) as [data|]; [| by apply agree_ret].
  eapply agree_bind; [apply json_records_same |].
  intros a1 a2 Ha. apply agree_ret. by apply Forall2_app.
Qed.

Lemma container_step_same (container : elem) (s1 s2 : pstate) :
  In container (containers_of soup) ->
  same_state soup s1 s2 ->
  agree (same_state soup) (container_step s1 container) (container_step s2 container).
Proof.
  intros Hin Hs. unfold container_step.
  destruct (any_in _ _); [| by apply agree_ret].
  eapply agree_bind; [by apply container_record_same |].
  intros o1 o2 [r1 r2 Hr |]; [| by apply agree_ret].
  rewrite (core_company r1 r2 (proj1 Hr)).
  destruct (negb _); apply agree_ret; [by apply add_record_same | done].
Qed.

Lemma link_step_same (link : elem) (s1 s2 : pstate) :
  same_state soup s1 s2 ->
  agree (same_state soup) (link_step s1 link) (link_step s2 link).
Proof.
  intros Hs. unfold link_step.
  destruct (_ && _); [| by apply agree_ret].
  destruct (parent link) as [p|]; [| by apply agree_ret].
  destruct (any_in _ _); [| by apply agree_ret].
  eapply agree_bind; [apply context_record_same |].
  intros o1 o2 [r1 r2 Hr |]; apply agree_ret; [by apply add_record_same | done].
Qed.

Lemma text_step_same (text : string) (s1 s2 : pstate) :
  same_state soup s1 s2 ->
  agree (same_state soup) (text_step s1 text) (text_step s2 text).
Proof.
  intros Hs. unfold text_step.
  eapply agree_bind; [apply text_record_same |].
  intros o1 o2 [r1 r2 Hr |]; apply agree_ret; [by apply add_record_same | done].
Qed.

Lemma parse_same :
  agree (Forall2 same) (_parse_html_content J soup) (_parse_html_content J soup).
Proof.
  unfold _parse_html_content.
  eapply agree_bind.
  { apply agree_fold; [intros; by apply json_script_step_same | constructor]. }
  intros l1 l2 Hl.
  eapply agree_bind.
  { apply (agree_fold_in (same_state soup));
      [intros x Hx s1 s2 Hs; by apply container_step_same | by split]. }
  intros s1 s2 Hs.
  eapply agree_bind.
  { apply (agree_fold (same_state soup)); [intros; by apply link_step_same | done]. }
  intros t1 t2 Ht.
  eapply agree_bind.
  { instantiate (1 := same_state soup).
    destruct Ht as [Hc Hk]. destruct t1 as [[|r1 l1'] k1], t2 as [[|r2 l2'] k2];
      simpl in Hc, Hk |- *; try (by inversion Hc).
    - apply (agree_fold (same_state soup));
        [intros; by apply text_step_same | by split].
    - apply agree_ret. by split. }
  intros u1 u2 [Hu _]. apply agree_ret.
  rewrite !remove_duplicates_dedup_from. by apply dedup_from_same.
Qed.

End PageDecides.

(** C6 ([_parse_html_content]), as amended.  On a fixed page two runs of the
    parser, in any two environments, return the same sequence of records as
    far as the company, the broker, the verdict and the target price go.  The
    current prices are the same too, but for the records of a container in
    which neither the markup nor the texts give a current price: only for
    those is the secondary lookup run, and its answer is the environment's,
    as is the reporting date (the clock). *)
Theorem parse_depends_on_page_up_to_lookup_and_clock
  (J : JsonLib) (soup : node)
  (W1 : Type) (h1 : world W1) (w1 : W1) (W2 : Type) (h2 : world W2) (w2 : W2) :
  map core (fst (run h1 (_parse_html_content J soup) w1))
  = map core (fst (run h2 (_parse_html_content J soup) w2))
  /\ Forall2 (fun a b => current_price a = current_price b
                         \/ priceless_container soup a)
             (fst (run h1 (_parse_html_content J soup) w1))
             (fst (run h2 (_parse_html_content J soup) w2)).
Proof.
  pose proof (parse_same J soup _ _ (leaf_run h1 _ w1) (leaf_run h2 _ w2)) as H.
  split.
  - induction H as [| a b l1 l2 [Hc _] _ IH]; simpl; [done | by rewrite Hc, IH].
  - eapply Forall2_impl; [exact H |]. by intros a b [_ Hp].
Qed.

(** C6 as stated fails: two runs of the parser on the same page, one after
    the other in the same environment, return different records.  The first
    run finds no current price (the lookup fails) and the second one gets
    1480 from the lookup; the dates differ as well. *)
Lemma two_runs_of_the_parser_differ :
  let first_run := run ticking (_parse_html_content no_json infosys_page) 0 in
  let second_run :=
    run ticking (_parse_html_content no_json infosys_page) (snd first_run) in
  fst first_run = [mkRec "MoneyControl Research" "Infosys" "BUY" 1700 0 1]
  /\ fst second_run = [mkRec "MoneyControl Research" "Infosys" "BUY" 1700 1480 3]
  /\ fst first_run <> fst second_run.
Proof.
  assert (run ticking (_parse_html_content no_json infosys_page) 0
          = ([mkRec "MoneyControl Research" "Infosys" "BUY" 1700 0 1], 2)) as E1
    by (vm_compute; reflexivity).
  assert (run ticking (_parse_html_content no_json infosys_page) 2
          = ([mkRec "MoneyControl Research" "Infosys" "BUY" 1700 1480 3], 4)) as E2
    by (vm_compute; reflexivity).
  cbv zeta. rewrite E1. simpl snd. rewrite E2. simpl fst.
  split; [done |]. split; [done |]. discriminate.
Qed.

(* ===================================================================== *)
(** * Further properties of the code *)
(* ===================================================================== *)

(** ** Running a program *)

Lemma run_bind {W A B : Type} (h : world W) (p : io A) (f : A -> io B) (w : W) :
  run h (p ≫= f) w = run h (f (fst (run h p w))) (snd (run h p w)).
Proof.
  revert w. induction p as [a | X e k IH]; intros w; [done |].
  change (run h (Vis e k ≫= f) w)
    with (let '(x, w') := h X e w in run h (k x ≫= f) w').
  simpl. destruct (h X e w) as [x w']. apply IH.
Qed.

Lemma calls_bind {W A B : Type} (h : world W) (p : io A) (f : A -> io B) (w : W) :
  calls h (p ≫= f) w
  = calls h p w ++ calls h (f (fst (run h p w))) (snd (run h p w)).
Proof.
  revert w. induction p as [a | X e k IH]; intros w; [done |].
  change (calls h (Vis e k ≫= f) w)
    with (let '(x, w') := h X e w in Call e :: calls h (k x ≫= f) w').
  simpl. destruct (h X e w) as [x w']. by rewrite IH.
Qed.

(** ** The acquisition cascade *)

(** X1 ([get_recommendations]).  The browser strategy is always tried first.
    A list that is not empty is returned as it is and the HTTP strategy is
    not tried; an exception of the browser strategy ends the call with the
    empty list, again without trying the HTTP strategy; only an empty answer
    leads to the HTTP strategy, whose list is the result (the empty list when
    it raises). *)
Theorem cascade_stops_at_first_answer {W : Type} (h : world W) (w : W) :
  (forall l,
     fst (h _ Selenium w) = Returned l -> l <> [] ->
     fst (run h get_recommendations w) = l
     /\ calls h get_recommendations w = [Call Selenium])
  /\ (forall msg,
        fst (h _ Selenium w) = Raised msg ->
        fst (run h get_recommendations w) = []
        /\ calls h get_recommendations w = [Call Selenium])
  /\ (fst (h _ Selenium w) = Returned [] ->
      fst (run h get_recommendations w)
      = match fst (h _ Requests (snd (h _ Selenium w))) with
        | Returned l => l
        | Raised _ => []
        end
      /\ calls h get_recommendations w = [Call Selenium; Call Requests]).
Proof.
  unfold get_recommendations, try_except, try_bind, trigger. simpl.
  destruct (h _ Selenium w) as [[l | msg] w1]; simpl.
  - split_and!.
    + intros l' [= <-] Hne. destruct l; [done |]. by simpl.
    + intros msg [=].
    + intros [= ->]. simpl.
      destruct (h _ Requests w1) as [[[|r l2] | msg] w2]; by simpl.
  - split_and!.
    + intros l [=].
    + intros msg' _. by simpl.
    + intros [=].
Qed.

Lemma cascade_stops_at_first_answer_witness :
  fst (run offline get_recommendations tt) = []
  /\ calls offline get_recommendations tt = [Call Selenium].
Proof.
  exact (proj1 (proj2 (cascade_stops_at_first_answer offline tt))
           "Selenium setup failed" eq_refl).
Defined.

(** ** The handlers *)

Lemma is_options_false (event : lambda_event) :
  httpMethod event <> Some "OPTIONS" -> is_options event = false.
Proof.
  intros Hm. unfold is_options. destruct (httpMethod event) as [mth|]; [| done].
  apply eqs_false. intros ->. by apply Hm.
Qed.

(** X2 ([stats_handler], [cleanup_handler]).  Whatever the method of the
    request, OPTIONS included, these two handlers answer a request that has no
    "x-api-key" header with the configured key by 401 and the body
    [{"error": "Invalid API key"}], and perform no operation before that. *)
Theorem stats_and_cleanup_reject_without_scraping
  (API_KEY : string) (event : lambda_event) :
  (forall k v, In (k, v) (headers_of event) -> lower k = "x-api-key" -> v <> API_KEY) ->
  stats_handler API_KEY event
  = Ret (create_response 401 (ErrorResponse "Invalid API key"))
  /\ cleanup_handler API_KEY event
     = Ret (create_response 401 (ErrorResponse "Invalid API key"))
  /\ body (create_response 401 (ErrorResponse "Invalid API key"))
     = Dumps [("error", JStr "Invalid API key")]
  /\ forall (W : Type) (h : world W) (w : W),
       calls h (stats_handler API_KEY event) w = []
       /\ calls h (cleanup_handler API_KEY event) w = [].
Proof.
  intros Hk.
  assert (validate_api_key API_KEY event = false) as Hv
    by (by apply validate_no_match).
  unfold stats_handler, cleanup_handler. rewrite Hv. simpl. by split_and!.
Qed.

Lemma stats_and_cleanup_reject_without_scraping_witness :
  stats_handler "dev-api-key-123" (mkEvent (Some "OPTIONS") None)
  = Ret (create_response 401 (ErrorResponse "Invalid API key")).
Proof.
  apply (stats_and_cleanup_reject_without_scraping
           "dev-api-key-123" (mkEvent (Some "OPTIONS") None)).
  simpl. intros k v [].
Defined.

Lemma in_list_In (x : string) (xs : list string) : in_list x xs = true -> In x xs.
Proof.
  unfold in_list. intros H. apply existsb_exists in H as [y [Hy E]].
  apply eqs_true in E. by subst.
Qed.

Lemma filter_recommendations_kept (recs : list BrokerRecommendation) :
  Forall (fun r => In (recommendation r) verdicts /\ 3 <= len (company_name r))
         (filter_recommendations recs).
Proof.
  apply Forall_forall. intros r Hr.
  unfold filter_recommendations in Hr. apply list_elem_of_filter in Hr as [Hr _].
  apply Is_true_true in Hr.
  apply andb_true_iff in Hr as [Hr Hv]. apply andb_true_iff in Hr as [_ Hl].
  split; [by apply in_list_In |]. apply Nat.ltb_lt in Hl. lia.
Qed.

(** X3 ([lambda_handler], [filter_recommendations]).  An authorised request
    that is not OPTIONS is answered 200 in every environment;
    [total_recommendations] is the number of entries of [recommendations], and
    every entry is a record with a verdict among BUY, SELL and HOLD and a
    company name of at least three characters. *)
Theorem recommendations_answer_counts_what_it_lists
  {W : Type} (h : world W) (w : W) (API_KEY : string) (event : lambda_event) :
  httpMethod event <> Some "OPTIONS" ->
  validate_api_key API_KEY event = true ->
  exists recs now,
    let resp := fst (run h (lambda_handler API_KEY event) w) in
    statusCode resp = 200
    /\ body resp = Dumps [("recommendations", JList (map recommendation_json recs));
                          ("timestamp", JIso now);
                          ("total_recommendations", JInt (length recs))]
    /\ Forall (fun r => In (recommendation r) verdicts /\ 3 <= len (company_name r))
              recs.
Proof.
  intros Hm Hv. unfold lambda_handler.
  rewrite (is_options_false event Hm), Hv. simpl negb. cbv iota.
  rewrite !run_bind.
  set (w1 := snd (run h (trigger NewCrawler) w)).
  set (got := run h get_recommendations w1).
  exists (filter_recommendations (fst got)).
  exists (fst (run h (trigger Now) (snd got))).
  simpl. split_and!; [done | done | apply filter_recommendations_kept].
Qed.

Lemma recommendations_answer_counts_what_it_lists_witness :
  exists recs now,
    let resp :=
      fst (run offline
             (lambda_handler "dev-api-key-123"
                (mkEvent (Some "GET") (Some [("x-api-key", "dev-api-key-123")])))
             tt) in
    statusCode resp = 200
    /\ body resp = Dumps [("recommendations", JList (map recommendation_json recs));
                          ("timestamp", JIso now);
                          ("total_recommendations", JInt (length recs))]
    /\ Forall (fun r => In (recommendation r) verdicts /\ 3 <= len (company_name r))
              recs.
Proof.
  apply (recommendations_answer_counts_what_it_lists offline tt).
  - simpl. discriminate.
  - reflexivity.
Defined.

(** ** The rankings *)

Lemma qlt_true (a b : Q) : qlt a b = true <-> (a < b)%Q.
Proof.
  unfold qlt. rewrite negb_true_iff. split.
  - intros H. apply Qnot_le_lt. intros Hle. apply Qle_bool_iff in Hle. congruence.
  - intros H. destruct (Qle_bool b a) eqn:E; [| done].
    apply Qle_bool_iff in E. exfalso. by eapply Qlt_not_le.
Qed.

Lemma qlt_false (a b : Q) : qlt a b = false <-> (b <= a)%Q.
Proof.
  unfold qlt. rewrite negb_false_iff. apply Qle_bool_iff.
Qed.

Lemma holds_append_to (k : string) (v : Q) (d : list (string * list Q))
  (k' : string) (v' : Q) :
  holds (append_to k v d) k' v' <-> holds d k' v' \/ (k' = k /\ v' = v).
Proof.
  unfold holds. induction d as [| [k0 vs0] d IH]; simpl.
  - split.
    + intros (vs & [[= <- <-] | []] & Hv). right. by destruct Hv as [-> | []].
    + intros [(vs & [] & _) | [-> ->]]. exists [v]. split; by left.
  - destruct (eqs k k0) eqn:E.
    + apply eqs_true in E as <-. split.
      * intros (vs & [[= <- <-] | Hin] & Hv).
        -- apply in_app_or in Hv as [Hv | [-> | []]]; [| by right].
           left. exists vs0. split; [by left | done].
        -- left. exists vs. split; [by right | done].
      * intros [(vs & [[= -> ->] | Hin] & Hv) | [-> ->]].
        -- exists (vs ++ [v]). split; [by left |]. apply in_or_app. by left.
        -- exists vs. split; [by right | done].
        -- exists (vs0 ++ [v]). split; [by left |]. apply in_or_app. right. by left.
    + split.
      * intros (vs & [[= <- <-] | Hin] & Hv).
        -- left. exists vs0. split; [by left | done].
        -- destruct (proj1 IH) as [(vs1 & H1 & H2) | Heq]; [by exists vs | |].
           ++ left. exists vs1. split; [by right | done].
           ++ by right.
      * intros [(vs & [[= -> ->] | Hin] & Hv) | Heq].
        -- exists vs. split; [by left | done].
        -- destruct (proj2 IH) as (vs1 & H1 & H2); [left; by exists vs |].
           exists vs1. split; [by right | done].
        -- destruct (proj2 IH) as (vs1 & H1 & H2); [by right |].
           exists vs1. split; [by right | done].
Qed.

Lemma keys_append_to (k : string) (v : Q) (d : list (string * list Q)) :
  map fst (append_to k v d) = map fst d
  \/ (~ In k (map fst d) /\ map fst (append_to k v d) = map fst d ++ [k]).
Proof.
  induction d as [| [k0 vs0] d IH]; simpl.
  - right. by split; [intros [] |].
  - destruct (eqs k k0) eqn:E; [by left |].
    apply eqs_false in E. simpl.
    destruct IH as [-> | [Hn ->]]; [by left |].
    right. split; [| done]. intros [-> | H]; [done | by apply Hn].
Qed.

Lemma filled_append_to (k : string) (v : Q) (d : list (string * list Q)) :
  Forall (fun kv => snd kv <> []) d ->
  Forall (fun kv => snd kv <> []) (append_to k v d).
Proof.
  induction 1 as [| [k0 vs0] d H0 Hd IH]; simpl.
  - by repeat constructor.
  - destruct (eqs k k0); constructor; try done.
    simpl. by destruct vs0.
Qed.

Section Grouping.
Variable key : BrokerRecommendation -> string.

Local Abbreviation step :=
  (fun d rec =>
     if gt0 (target_price rec)
     then append_to (key rec) (target_price rec) d
     else d).

Lemma grouping_from (recs : list BrokerRecommendation) (d : list (string * list Q)) :
  NoDup (map fst d) ->
  Forall (fun kv => snd kv <> []) d ->
  NoDup (map fst (fold_left step recs d))
  /\ Forall (fun kv => snd kv <> []) (fold_left step recs d)
  /\ forall k v, holds (fold_left step recs d) k v
                 <-> holds d k v \/ positive_target key recs k v.
Proof.
  revert d. induction recs as [| rec recs IH]; intros d Hn Hf; simpl.
  - split_and!; [done | done |]. intros k v. split; [by left |].
    intros [H | (rec & [] & _)]. done.
  - destruct (gt0 (target_price rec)) eqn:Hg.
    + destruct (IH (append_to (key rec) (target_price rec) d)) as (H1 & H2 & H3).
      * destruct (keys_append_to (key rec) (target_price rec) d) as [-> | [Hk ->]];
          [done |].
        apply NoDup_app. split_and!; [done | | apply NoDup_singleton].
        intros x Hx Hx'. apply list_elem_of_In in Hx.
        apply list_elem_of_singleton in Hx'. by subst.
      * by apply filled_append_to.
      * split_and!; [done | done |]. intros k v. rewrite H3, holds_append_to.
        split.
        -- intros [[H | [-> ->]] | (r & Hr & Hrest)].
           ++ by left.
           ++ right. exists rec. split_and!; [by left | done | done | done].
           ++ right. exists r. split; [by right | done].
        -- intros [H | (r & [<- | Hr] & Hk & Hv & Hp)].
           ++ left. by left.
           ++ left. right. by split.
           ++ right. by exists r.
    + destruct (IH d Hn Hf) as (H1 & H2 & H3).
      split_and!; [done | done |]. intros k v. rewrite H3. split.
      * intros [H | (r & Hr & Hrest)]; [by left |].
        right. exists r. split; [by right | done].
      * intros [H | (r & [<- | Hr] & Hk & Hv & Hp)]; [by left | |].
        -- subst v. congruence.
        -- right. by exists r.
Qed.

Lemma grouped_spec (recs : list BrokerRecommendation) :
  NoDup (map fst (grouped key recs))
  /\ Forall (fun kv => snd kv <> []) (grouped key recs)
  /\ forall k v, holds (grouped key recs) k v <-> positive_target key recs k v.
Proof.
  destruct (grouping_from recs []) as (H1 & H2 & H3);
    [apply NoDup_nil_2 | constructor |].
  split_and!; [done | done |]. intros k v. rewrite (H3 k v). split.
  - by intros [(vs & [] & _) | H].
  - by right.
Qed.

End Grouping.

Lemma summarise_spec (figure : list Q -> option Q) (d : list (string * list Q)) :
  (forall vs, vs <> [] -> is_Some (figure vs)) ->
  Forall (fun kv => snd kv <> []) d ->
  exists l, summarise figure d = Some l
            /\ map fst l = map fst d
            /\ forall k x, In (k, x) l ->
                           exists vs, In (k, vs) d /\ figure vs = Some x.
Proof.
  intros Hfig. induction 1 as [| [k vs] d H0 Hd (l & El & Ek & Hl)]; simpl.
  - exists []. split_and!; [done | done |]. by intros k x [].
  - destruct (Hfig vs H0) as [x Ex]. rewrite Ex, El. simpl.
    exists ((k, x) :: l). split_and!; [done | by simpl; rewrite Ek |].
    intros k' x' [[= <- <-] | Hin].
    + exists vs. split; [by left | done].
    + destruct (Hl k' x' Hin) as (vs' & H1 & H2). exists vs'. split; [by right | done].
Qed.

Lemma insert_desc_perm (x : string * Q) (l : list (string * Q)) :
  Permutation (insert_desc x l) (x :: l).
Proof.
  induction l as [| y l IH]; simpl; [done |].
  destruct (qlt (snd x) (snd y)); [| done].
  rewrite IH. apply perm_swap.
Qed.

Lemma sorted_desc_perm (l : list (string * Q)) : Permutation (sorted_desc l) l.
Proof.
  induction l as [| x l IH]; simpl; [done |].
  rewrite insert_desc_perm. by constructor.
Qed.

Lemma insert_desc_sorted (x : string * Q) (l : list (string * Q)) :
  StronglySorted ranks_before l -> StronglySorted ranks_before (insert_desc x l).
Proof.
  induction 1 as [| y l Hs IH Hy]; simpl.
  - repeat constructor.
  - destruct (qlt (snd x) (snd y)) eqn:E.
    + apply qlt_true in E. constructor; [done |].
      apply List.Forall_forall. intros z Hz.
      apply (Permutation_in _ (insert_desc_perm x l)) in Hz as [<- | Hz].
      * by apply Qlt_le_weak.
      * by apply (proj1 (List.Forall_forall _ _) Hy).
    + apply qlt_false in E. constructor; [by constructor |].
      constructor; [done |].
      apply List.Forall_forall. intros z Hz. unfold ranks_before.
      eapply Qle_trans; [| exact E].
      by apply (proj1 (List.Forall_forall _ _) Hy).
Qed.

Lemma sorted_desc_sorted (l : list (string * Q)) :
  StronglySorted ranks_before (sorted_desc l).
Proof.
  induction l as [| x l IH]; simpl; [constructor | by apply insert_desc_sorted].
Qed.

Lemma firstn_In {A : Type} (n : nat) (l : list A) (x : A) :
  In x (firstn n l) -> In x l.
Proof.
  revert n. induction l as [| y l IH]; intros [| n]; simpl; try done.
  intros [-> | H]; [by left | right; by eapply IH].
Qed.

Lemma firstn_sorted {A : Type} (R : A -> A -> Prop) (n : nat) (l : list A) :
  StronglySorted R l -> StronglySorted R (firstn n l).
Proof.
  intros H. revert n. induction H as [| x l Hs IH Hx]; intros [| n]; simpl;
    try constructor; [apply IH |].
  apply List.Forall_forall. intros z Hz.
  apply (proj1 (List.Forall_forall _ _) Hx). by eapply firstn_In.
Qed.

Lemma unique_entry {A : Type} (d : list (string * A)) (k : string) (a b : A) :
  NoDup (map fst d) -> In (k, a) d -> In (k, b) d -> a = b.
Proof.
  induction d as [| [k0 c] d IH]; simpl; [by intros _ [] |].
  intros Hn. apply NoDup_cons in Hn as [Hk Hn].
  rewrite list_elem_of_In in Hk.
  intros [Ha | Ha] [Hb | Hb].
  - congruence.
  - injection Ha as -> ->. exfalso. apply Hk. by apply (in_map fst d (k, b)).
  - injection Hb as -> ->. exfalso. apply Hk. by apply (in_map fst d (k, a)).
  - by apply IH.
Qed.

Lemma ranked_spec (figure : list Q -> option Q) (d : list (string * list Q))
  (limit : nat) :
  (forall vs, vs <> [] -> is_Some (figure vs)) ->
  NoDup (map fst d) ->
  Forall (fun kv => snd kv <> []) d ->
  exists top,
    ranked figure d limit = Some top
    /\ length top <= limit
    /\ NoDup (map fst top)
    /\ StronglySorted ranks_before top
    /\ (forall k x, In (k, x) top -> exists vs, In (k, vs) d /\ figure vs = Some x)
    /\ (length top < limit -> forall k, In k (map fst d) -> In k (map fst top)).
Proof.
  intros Hfig Hn Hf.
  destruct (summarise_spec figure d Hfig Hf) as (l & El & Ek & Hl).
  unfold ranked. rewrite El. simpl.
  exists (firstn limit (sorted_desc l)).
  assert (Permutation (map fst (sorted_desc l)) (map fst d)) as Hp
    by (rewrite <- Ek; apply Permutation_map, sorted_desc_perm).
  split_and!.
  - done.
  - rewrite length_firstn. lia.
  - rewrite <- firstn_map.
    eapply sublist_NoDup; [| apply sublist_take].
    by rewrite Hp.
  - apply firstn_sorted, sorted_desc_sorted.
  - intros k x Hin. apply Hl.
    apply (Permutation_in _ (sorted_desc_perm l)). by eapply firstn_In.
  - intros Hlt k Hk.
    rewrite length_firstn in Hlt.
    rewrite firstn_all2 by lia.
    by apply (Permutation_in _ (Permutation_sym Hp)).
Qed.


Lemma maximum_total (vs : list Q) : vs <> [] -> is_Some (maximum vs).
Proof. by destruct vs. Qed.

Lemma pmax_cases (a b : Q) :
  (pmax a b = a \/ pmax a b = b) /\ (a <= pmax a b)%Q /\ (b <= pmax a b)%Q.
Proof.
  unfold pmax. destruct (qlt a b) eqn:E.
  - apply qlt_true in E. split_and!; [by right | by apply Qlt_le_weak | apply Qle_refl].
  - apply qlt_false in E. split_and!; [by left | apply Qle_refl | done].
Qed.

Lemma fold_pmax_spec (xs : list Q) (x : Q) :
  In (fold_left pmax xs x) (x :: xs)
  /\ forall v, In v (x :: xs) -> (v <= fold_left pmax xs x)%Q.
Proof.
  revert x. induction xs as [| y xs IH]; intros x; simpl.
  - split; [by left |]. intros v [<- | []]. apply Qle_refl.
  - destruct (IH (pmax x y)) as [Hin Hge].
    destruct (pmax_cases x y) as (Hc & Hx & Hy). split.
    + destruct Hin as [<- | Hin]; [| by right; right].
      destruct Hc as [-> | ->]; [by left | by right; left].
    + intros v [<- | [<- | Hv]].
      * eapply Qle_trans; [exact Hx |]. apply Hge. by left.
      * eapply Qle_trans; [exact Hy |]. apply Hge. by left.
      * apply Hge. by right.
Qed.







(** X5 ([get_top_brokers]).  For every list of records and every limit the
    function returns a list ([max] is never applied to an empty list) of at
    most [limit] entries, without a broker twice and in descending order of
    the figure; the figure of a listed broker is the target price of one of
    its records and no record of this broker has a larger one; and unless the
    list is full, every broker with a positive target price is listed. *)
Theorem top_brokers_is_a_ranking (recs : list BrokerRecommendation) (limit : nat) :
  exists top,
    get_top_brokers recs limit = Some top
    /\ length top <= limit
    /\ NoDup (map fst top)
    /\ StronglySorted ranks_before top
    /\ (forall k x, In (k, x) top ->
          (exists rec, In rec recs /\ broker_name rec = k /\ target_price rec = x
                       /\ gt0 x = true)
          /\ forall rec, In rec recs -> broker_name rec = k ->
                         (target_price rec <= x)%Q)
    /\ (length top < limit ->
        forall rec, In rec recs -> gt0 (target_price rec) = true ->
                    In (broker_name rec) (map fst top)).
Proof.
  destruct (grouped_spec broker_name recs) as (Hn & Hf & Hh).
  destruct (ranked_spec maximum (grouped broker_name recs) limit maximum_total Hn Hf)
    as (top & E & Hlen & Hnd & Hs & Hin & Hall).
  exists top. split_and!; try done.
  - intros k x Hk. destruct (Hin k x Hk) as (vs & Hvs & Hm).
    destruct vs as [| v vs]; [done |]. injection Hm as Hm.
    destruct (fold_pmax_spec vs v) as [Hmax Hge]. rewrite Hm in Hmax, Hge.
    assert (positive_target broker_name recs k x) as Hx.
    { apply Hh. by exists (v :: vs). }
    split; [exact Hx |].
    intros rec Hr Hkey. destruct (gt0 (target_price rec)) eqn:Hp.
    + destruct (proj2 (Hh k (target_price rec))) as (vs' & Hvs' & Hv').
      { by exists rec. }
      rewrite (unique_entry _ k vs' (v :: vs) Hn Hvs' Hvs) in Hv'.
      by apply Hge.
    + apply qlt_false in Hp. destruct Hx as (_ & _ & _ & _ & Hpos).
      apply qlt_true in Hpos. eapply Qle_trans; [exact Hp |].
      by apply Qlt_le_weak.
  - intros Hlt rec Hr Hp. apply (Hall Hlt).
    destruct (proj2 (Hh (broker_name rec) (target_price rec))) as (vs & Hvs & _).
    { by exists rec. }
    by apply (in_map fst _ (broker_name rec, vs)).
Qed.

(** ** The company name of a context *)

Lemma first_some_inv {A B : Type} (f : A -> option B) (l : list A) (y : B) :
  first_some f l = Some y -> exists x, In x l /\ f x = Some y.
Proof.
  induction l as [| x l IH]; simpl; [done |].
  destruct (f x) as [y' |] eqn:E.
  - intros [= <-]. exists x. split; [by left | done].
  - intros H. destruct (IH H) as (x' & Hx & Hf). exists x'. split; [by right | done].
Qed.

Lemma cleaned_if_valid_inv (t c : string) :
  cleaned_if_valid t = Some c -> _is_valid_company_name c = true.
Proof.
  unfold cleaned_if_valid.
  destruct (_is_valid_company_name (_clean_company_name t)) eqn:E; [| done].
  by intros [= <-].
Qed.

Lemma company_from_link_inv (accept : string -> bool) (link : elem) (c : string) :
  company_from_link accept link = Some c -> _is_valid_company_name c = true.
Proof.
  unfold company_from_link. destruct (_ && _); [| done]. apply cleaned_if_valid_inv.
Qed.

Lemma valid_name_length (name : string) :
  _is_valid_company_name name = true -> name <> EmptyString /\ 3 <= len name <= 50.
Proof.
  unfold _is_valid_company_name.
  destruct (eqs name EmptyString || Nat.ltb (len name) 3 || Nat.ltb 50 (len name))
    eqn:E; [done |].
  intros _. apply orb_false_iff in E as [E E3]. apply orb_false_iff in E as [E1 E2].
  apply Nat.ltb_ge in E2, E3. apply eqs_false in E1. split; [done | lia].
Qed.

Lemma first_valid_of_four (o1 o2 o3 o4 : option string) :
  (forall c, o1 = Some c -> _is_valid_company_name c = true) ->
  (forall c, o2 = Some c -> _is_valid_company_name c = true) ->
  (forall c, o3 = Some c -> _is_valid_company_name c = true) ->
  (forall c, o4 = Some c -> _is_valid_company_name c = true) ->
  let name :=
    match o1 with
    | Some c => c
    | None =>
      match o2 with
      | Some c => c
      | None =>
        match o3 with
        | Some c => c
        | None => match o4 with Some c => c | None => EmptyString end
        end
      end
    end in
  name = EmptyString \/ _is_valid_company_name name = true.
Proof.
  intros H1 H2 H3 H4.
  destruct o1 as [c |]; [right; by apply H1 |].
  destruct o2 as [c |]; [right; by apply H2 |].
  destruct o3 as [c |]; [right; by apply H3 |].
  destruct o4 as [c |]; [right; by apply H4 | by left].
Qed.

Lemma company_name_cases (context_element : elem) :
  _extract_company_name context_element = EmptyString
  \/ _is_valid_company_name (_extract_company_name context_element) = true.
Proof.
  unfold _extract_company_name. apply first_valid_of_four.
  - intros c E. apply first_some_inv in E as (l & _ & E).
    by eapply company_from_link_inv.
  - intros c E. apply first_some_inv in E as (l & _ & E).
    by eapply company_from_link_inv.
  - intros c E. apply first_some_inv in E as (l & _ & E). cbv beta in E.
    by eapply cleaned_if_valid_inv.
  - intros c E. apply first_some_inv in E as (p & _ & E). cbv beta in E.
    apply first_some_inv in E as (t & _ & E). by eapply cleaned_if_valid_inv.
Qed.

(** X6 ([_extract_company_name], [_is_valid_company_name]).  Whatever the
    element, the name the four strategies (quote links, stock links, bold
    elements and headings, name patterns in the text) come to is either the
    empty string or a name that passes the validity check, and then of 3 to 50
    characters. *)
Theorem company_name_is_empty_or_valid (context_element : elem) :
  _extract_company_name context_element = EmptyString
  \/ (_is_valid_company_name (_extract_company_name context_element) = true
      /\ 3 <= len (_extract_company_name context_element) <= 50).
Proof.
  destruct (company_name_cases context_element) as [H | H]; [by left |].
  right. split; [done |]. by apply valid_name_length.
Qed.

(** ** Prices read from the markup *)

Lemma plausible_zero : plausible_slots (0%Q, 0%Q).
Proof. split; by left. Qed.

Lemma plausible_write (price : Q) (st : slots) :
  within 10 50000 price = true -> plausible_slots st ->
  plausible_slots (to_target price st)
  /\ plausible_slots (to_current price st)
  /\ plausible_slots (by_order price st)
  /\ plausible_slots (fst st, price)
  /\ plausible_slots (price, snd st).
Proof.
  intros Hp [Hc Ht]. unfold to_target, to_current, by_order, plausible_slots.
  destruct (is0 (snd st)), (is0 (fst st)); simpl; split_and!;
    try done; by right.
Qed.

Lemma fold_left_inv {A S : Type} (P : S -> Prop) (f : S -> A -> S)
  (l : list A) (s : S) :
  P s -> (forall s x, P s -> P (f s x)) -> P (fold_left f l s).
Proof.
  intros Hs Hf. revert s Hs. induction l as [| x l IH]; intros s Hs; simpl; [done |].
  by apply IH, Hf.
Qed.

Lemma data_price_loop_plausible (els : list elem) (st : slots) :
  plausible_slots st -> plausible_slots (slots_of (data_price_loop els st)).
Proof.
  revert st. induction els as [| el els IH]; intros st Hst; simpl; [done |].
  destruct (get "data-price" (node_of el)) as [price_val |]; [| by apply IH].
  destruct (_ && _); [| by apply IH].
  destruct (float price_val) as [price |]; [| done].
  apply IH. destruct (within 10 50000 price) eqn:E; [| done].
  by destruct (plausible_write price st E Hst) as (_ & _ & H & _).
Qed.

Lemma data_price_loop_flow (els : list elem) (st : slots) (g : slots -> flow) :
  plausible_slots st ->
  (forall st', plausible_slots st' -> plausible_slots (slots_of (g st'))) ->
  plausible_slots (slots_of (and_then (data_price_loop els st) g)).
Proof.
  intros Hst Hg. pose proof (data_price_loop_plausible els st Hst) as H.
  destruct (data_price_loop els st); simpl in *; [by apply Hg | done].
Qed.

Lemma title_loop_plausible (els : list elem) (st : slots) :
  plausible_slots st -> plausible_slots (slots_of (title_loop els st)).
Proof.
  revert st. induction els as [| el els IH]; intros st Hst; simpl; [done |].
  destruct (search true _ _) as [mo |]; [| by apply IH].
  destruct (group_float 1 mo) as [price |]; [| done].
  apply IH. destruct (within 10 50000 price) eqn:E; [| done].
  destruct (plausible_write price st E Hst) as (_ & _ & _ & H1 & H2).
  destruct (contains "target" _); [done |]. by destruct (_ || _).
Qed.

Lemma title_loop_flow (els : list elem) (st : slots) (g : slots -> flow) :
  plausible_slots st ->
  (forall st', plausible_slots st' -> plausible_slots (slots_of (g st'))) ->
  plausible_slots (slots_of (and_then (title_loop els st) g)).
Proof.
  intros Hst Hg. pose proof (title_loop_plausible els st Hst) as H.
  destruct (title_loop els st); simpl in *; [by apply Hg | done].
Qed.

Lemma price_class_numbers_plausible (el : elem) (st : slots) :
  plausible_slots st -> plausible_slots (price_class_numbers el st).
Proof.
  intros Hst. unfold price_class_numbers. apply fold_left_inv; [done |].
  intros s num_str Hs.
  destruct (float _) as [price |]; [| done].
  destruct (within 10 50000 price) eqn:E; [| done].
  destruct (plausible_write price s E Hs) as (H1 & H2 & H3 & _).
  destruct (_ || _); [done |]. by destruct (_ || _).
Qed.

Lemma price_cell_plausible (cell : elem) (st : slots) :
  plausible_slots st -> plausible_slots (price_cell cell st).
Proof.
  intros Hst. unfold price_cell.
  destruct (found _); [| done].
  destruct (float _) as [price |]; [| done].
  destruct (within 10 50000 price) eqn:E; [| done].
  destruct (plausible_write price st E Hst) as (H1 & H2 & H3 & _).
  destruct (_ || _); [done |]. by destruct (_ || _).
Qed.

Lemma numeric_element_plausible (el : elem) (st : slots) :
  plausible_slots st -> plausible_slots (numeric_element el st).
Proof.
  intros Hst. unfold numeric_element.
  destruct (found _); [| done].
  destruct (float _) as [price |]; [| done].
  destruct (within 10 50000 price) eqn:E; [| done].
  destruct (plausible_write price st E Hst) as (H1 & H2 & H3 & _).
  destruct (_ || _); [done |]. by destruct (_ || _).
Qed.

Lemma hidden_input_plausible (input_elem : elem) (st : slots) :
  plausible_slots st -> plausible_slots (hidden_input input_elem st).
Proof.
  intros Hst. unfold hidden_input.
  destruct (_ && _); [| done].
  destruct (float _) as [price |]; [| done].
  destruct (within 10 50000 price) eqn:E; [| done].
  destruct (plausible_write price st E Hst) as (H1 & H2 & _).
  destruct (contains "target" _); [done |]. by destruct (_ || _).
Qed.

Lemma extract_prices_from_html_plausible (container : elem) :
  plausible_slots (_extract_prices_from_html container).
Proof.
  unfold _extract_prices_from_html.
  apply data_price_loop_flow; [apply plausible_zero |]. intros st1 H1.
  apply title_loop_flow; [done |]. intros st2 H2.
  cbv zeta. unfold slots_of.
  apply fold_left_inv; [| intros; by apply hidden_input_plausible].
  apply fold_left_inv; [| intros; by apply numeric_element_plausible].
  apply fold_left_inv; [| intros; by apply price_cell_plausible].
  apply fold_left_inv; [done | intros; by apply price_class_numbers_plausible].
Qed.

(** X7 ([_extract_prices_from_html]).  Whatever the markup of the container,
    each of the two prices the six attribute and element rules come to is 0.0
    or lies between 10 and 50000, also when a conversion raises and ends the
    rules early. *)
Theorem markup_prices_are_zero_or_in_window (container : elem) :
  let current_price := fst (_extract_prices_from_html container) in
  let target_price := snd (_extract_prices_from_html container) in
  (current_price == 0 \/ 10 <= current_price <= 50000)%Q
  /\ (target_price == 0 \/ 10 <= target_price <= 50000)%Q.
Proof.
  assert (forall x, plausible x -> (x == 0 \/ 10 <= x <= 50000)%Q) as H.
  { intros x [Hx | Hx].
    - left. by apply Qeq_bool_iff.
    - right. apply andb_true_iff in Hx as [H1 H2]. split; by apply Qle_bool_iff. }
  destruct (extract_prices_from_html_plausible container) as [Hc Ht].
  split; by apply H.
Qed.

(** ** The order of the price rules *)

Lemma range_rule_keeps (text : string) (st st' : slots) :
  range_rule text st = Some st' -> keeps st st'.
Proof.
  destruct st as [c t]. unfold range_rule.
  destruct (is0 c || is0 t); [| intros [= <-]; apply keeps_refl].
  destruct (search true _ text) as [mo |]; [| intros [= <-]; apply keeps_refl].
  destruct (group_float 1 mo); simpl; [| done].
  destruct (group_float 2 mo); simpl; [| done].
  intros [= <-]. apply keeps_guarded.
Qed.

Lemma extract_prices_after_keywords (text : string) (st : slots) :
  keyword_rules text = Some st ->
  exists st', _extract_prices text = Some st' /\ nonneg st' /\ keeps st st'.
Proof.
  intros Hk. destruct (keyword_rules_total text) as (st0 & E0 & N0).
  rewrite Hk in E0. injection E0 as <-.
  destruct (range_rule_total text st N0) as (st1 & E1 & N1).
  destruct (after_rs_rule_total text (rs_rule text st1)) as (st2 & E2 & N2);
    [by apply rs_rule_nonneg |].
  exists st2. split_and!; [| done |].
  - unfold _extract_prices, before_rs_rule. rewrite Hk.
    cbv beta iota delta [mbind option_bind]. by rewrite E1.
  - eapply keeps_trans; [by eapply range_rule_keeps |].
    eapply keeps_trans; [apply rs_rule_keeps | by eapply after_rs_rule_keeps].
Qed.

Lemma extract_prices_total (text : string) :
  exists st, _extract_prices text = Some st /\ nonneg st.
Proof.
  destruct (keyword_rules_total text) as (st0 & E0 & _).
  destruct (extract_prices_after_keywords text st0 E0) as (st & E & N & _).
  by exists st.
Qed.

(** X8 ([_extract_prices]).  A price that the keyword patterns find is final:
    on every text the keyword rules give a current price and a target price,
    and whichever of the two is not 0.0 is the price of the result, whatever
    the range, [Rs], buy-at, bracket, pair and bare-number rules that follow
    read in the text. *)
Theorem keyword_prices_are_final (text : string) :
  exists c t c' t',
    current_rules text = Some c
    /\ target_rules text = Some t
    /\ _extract_prices text = Some (c', t')
    /\ (is0 c = false -> c' = c)
    /\ (is0 t = false -> t' = t).
Proof.
  destruct (target_rules_total text) as (t & Et & _).
  destruct (current_rules_total text) as (c & Ec & _).
  assert (keyword_rules text = Some (c, t)) as Hk.
  { unfold keyword_rules. rewrite Et.
    cbv beta iota delta [mbind option_bind]. by rewrite Ec. }
  destruct (extract_prices_after_keywords text (c, t) Hk) as ([c' t'] & E & _ & K1 & K2).
  by exists c, t, c', t'.
Qed.

Lemma within_weaken (lo hi lo' hi' x : Q) :
  (lo' <= lo)%Q -> (hi <= hi')%Q -> within lo hi x = true -> within lo' hi' x = true.
Proof.
  intros Hlo Hhi H. apply andb_true_iff in H as [H1 H2].
  apply Qle_bool_iff in H1, H2. apply andb_true_iff.
  split; apply Qle_bool_iff; eapply Qle_trans; eauto.
Qed.

Lemma plausible_nonneg (st : slots) : plausible_slots st -> nonneg st.
Proof.
  assert (forall x, plausible x -> (0 <= x)%Q) as H.
  { intros x [Hx | Hx].
    - apply Qeq_bool_iff in Hx. rewrite Hx. apply Qle_refl.
    - by apply (within_nonneg 10 50000). }
  intros [H1 H2]. split; by apply H.
Qed.

Lemma plausible_guarded (c t x y : Q) :
  plausible_slots (c, t) -> plausible x -> plausible y ->
  plausible_slots (if is0 c then x else c, if is0 t then y else t).
Proof.
  intros [Hc Ht] Hx Hy. split; simpl; [by destruct (is0 c) | by destruct (is0 t)].
Qed.

Lemma pmin_pmax_plausible (a b : Q) :
  plausible a -> plausible b -> plausible (pmin a b) /\ plausible (pmax a b).
Proof.
  intros Ha Hb. unfold pmin, pmax. by destruct (qlt b a), (qlt a b).
Qed.

Lemma sorted_window_plausible (lo hi : Q) (numerals : list string) :
  (10 <= lo)%Q -> (hi <= 50000)%Q ->
  plausible (first (sort (in_window lo hi numerals)))
  /\ plausible (final (sort (in_window lo hi numerals)))
  /\ plausible (first (in_window lo hi numerals)).
Proof.
  intros Hlo Hhi.
  assert (Forall plausible (in_window lo hi numerals)) as Hw.
  { eapply Forall_impl; [apply in_window_Forall |].
    intros x Hx. right. by apply (within_weaken lo hi). }
  assert (plausible 0%Q) as H0 by (by left).
  split_and!.
  - apply first_Forall; [done | by apply sort_Forall].
  - apply final_Forall; [done | by apply sort_Forall].
  - by apply first_Forall.
Qed.

Lemma rs_rule_plausible (text : string) (st : slots) :
  plausible_slots st -> plausible_slots (rs_rule text st).
Proof.
  intros Hst. destruct st as [c t]. unfold rs_rule, rs_prices.
  destruct (is0 c || is0 t); [| done].
  destruct (sorted_window_plausible 10 50000
              (findall1 true (re_compile "Rs\.?\s*(\d+(?:,\d{3})*(?:\.\d+)?)") text))
    as (H1 & H2 & H3); [done | done |].
  destruct (Nat.leb 2 _); [by apply plausible_guarded |].
  destruct (Nat.eqb _ 1); [| done].
  destruct Hst as [Hc Ht]. split; simpl; [done | by destruct (is0 t)].
Qed.

Lemma bracket_rule_plausible (text : string) (st st' : slots) :
  plausible_slots st -> bracket_rule text st = Some st' -> plausible_slots st'.
Proof.
  intros Hst. destruct st as [c t]. unfold bracket_rule.
  destruct (is0 c || is0 t); [| by intros [= <-]].
  destruct (search false _ text) as [mo |]; [| by intros [= <-]].
  destruct (group_float 1 mo) as [p1 |]; simpl; [| done].
  destruct (group_float 2 mo) as [p2 |]; simpl; [| done].
  destruct (within 10 50000 p1) eqn:E1; simpl; [| by intros [= <-]].
  destruct (within 10 50000 p2) eqn:E2; simpl; [| by intros [= <-]].
  intros [= <-].
  destruct (pmin_pmax_plausible p1 p2) as [Hmin Hmax]; [by right | by right |].
  by apply plausible_guarded.
Qed.

Lemma number_pair_rule_plausible (text : string) (st : slots) :
  plausible_slots st -> plausible_slots (number_pair_rule text st).
Proof.
  intros Hst. destruct st as [c t]. unfold number_pair_rule.
  destruct (is0 c || is0 t); [| done].
  induction (findall2 false _ text) as [| [a b] pairs IH]; simpl; [done |].
  destruct (float a) as [p1 |]; [| done]. destruct (float b) as [p2 |]; [| done].
  destruct (within 50 50000 p1) eqn:E1; simpl; [| done].
  destruct (within 50 50000 p2) eqn:E2; simpl; [| done].
  destruct (qlt _ _); [| done].
  destruct (pmin_pmax_plausible p1 p2) as [Hmin Hmax];
    [right; by apply (within_weaken 50 50000) ..|].
  by apply plausible_guarded.
Qed.

Lemma standalone_rule_plausible (text : string) (st : slots) :
  plausible_slots st -> plausible_slots (standalone_rule text st).
Proof.
  intros Hst. destruct st as [c t]. unfold standalone_rule.
  destruct (is0 c || is0 t); [| done].
  destruct (sorted_window_plausible 100 20000
              (findall1 false (re_compile "\b(\d{3,5})\b") text))
    as (H1 & H2 & _); [done | done |].
  destruct (Nat.leb 2 _); [by apply plausible_guarded | done].
Qed.

(** X9 ([_extract_prices]).  Prices that no keyword anchors stay in the
    window: when each slot is 0.0 or between 10 and 50000 as the unanchored
    [Rs] rule is reached, and the text has no "buy at N, target M" phrase, the
    function returns a pair of which each price is 0.0 or between 10 and
    50000. *)
Theorem unanchored_prices_stay_in_window (text : string) (st : slots) :
  before_rs_rule text = Some st ->
  plausible_slots st ->
  search true
    (re_compile "(?:buy|purchase)\s+(?:at\s+)?(\d+(?:,\d{3})*(?:\.\d+)?)\s*,?\s*(?:target|tp)\s+(\d+(?:,\d{3})*(?:\.\d+)?)")
    text = None ->
  exists st', _extract_prices text = Some st' /\ plausible_slots st'.
Proof.
  intros Hb Hst Hbuy.
  pose proof (rs_rule_plausible text st Hst) as H1.
  destruct (after_rs_rule_total text (rs_rule text st)) as (st' & E & _);
    [by apply plausible_nonneg |].
  exists st'. split.
  - unfold _extract_prices. rewrite Hb.
    cbv beta iota delta [mbind option_bind]. exact E.
  - revert E. unfold after_rs_rule.
    assert (buy_target_rule text (rs_rule text st) = Some (rs_rule text st)) as ->.
    { unfold buy_target_rule. destruct (rs_rule text st) as [c t].
      rewrite Hbuy. by destruct (is0 c || is0 t). }
    cbv beta iota delta [mbind option_bind].
    destruct (bracket_rule text (rs_rule text st)) as [st2 |] eqn:E2; [| done].
    intros [= <-].
    apply standalone_rule_plausible, number_pair_rule_plausible.
    by eapply bracket_rule_plausible.
Qed.

Lemma rs_500_and_700_before_rs_rule :
  before_rs_rule "Rs 500 and 700" = Some (0%Q, 0%Q).
Proof. vm_compute. reflexivity. Qed.

Lemma rs_500_and_700_no_buy_at :
  search true
    (re_compile "(?:buy|purchase)\s+(?:at\s+)?(\d+(?:,\d{3})*(?:\.\d+)?)\s*,?\s*(?:target|tp)\s+(\d+(?:,\d{3})*(?:\.\d+)?)")
    "Rs 500 and 700" = None.
Proof. vm_compute. reflexivity. Qed.

Lemma unanchored_prices_stay_in_window_witness :
  exists st', _extract_prices "Rs 500 and 700" = Some st' /\ plausible_slots st'.
Proof.
  exact (unanchored_prices_stay_in_window "Rs 500 and 700" (0%Q, 0%Q)
           rs_500_and_700_before_rs_rule plausible_zero rs_500_and_700_no_buy_at).
Defined.

(** ** The records of a container *)

Lemma extract_recommendation_verdict (call_text : string) :
  In (_extract_recommendation call_text) verdicts.
Proof.
  unfold _extract_recommendation, verdicts.
  destruct (_ || _); [by left |].
  destruct (_ || _); [right; by left |].
  destruct (_ || _); [right; right; by left | by left].
Qed.

Lemma verdict_not_empty (v : string) : In v verdicts -> eqs v EmptyString = false.
Proof. intros [<- | [<- | [<- | []]]]; reflexivity. Qed.

Lemma verdict_in_list (v : string) :
  In v verdicts -> in_list v ["BUY"; "SELL"; "HOLD"] = true.
Proof. intros [<- | [<- | [<- | []]]]; reflexivity. Qed.

Lemma or_default_not_empty (broker : string) : or_default broker <> EmptyString.
Proof.
  unfold or_default. destruct (eqs broker EmptyString) eqn:E; [done |].
  by apply eqs_false.
Qed.

Lemma filter_keeps_valid (r : BrokerRecommendation) :
  _is_valid_company_name (company_name r) = true ->
  In (recommendation r) verdicts ->
  filter_recommendations [r] = [r].
Proof.
  intros Hv Hr. apply valid_name_length in Hv as [Hn Hl].
  unfold filter_recommendations. rewrite filter_cons_True; [done |].
  apply eqs_false in Hn. rewrite Hn, (verdict_not_empty _ Hr), (verdict_in_list _ Hr).
  assert (Nat.ltb 2 (len (company_name r)) = true) as -> by (apply Nat.ltb_lt; lia).
  done.
Qed.

Lemma surrounding_loop_spec (els : list elem) (st : slots) :
  nonneg st ->
  exists st', surrounding_loop els st = Some st' /\ nonneg st' /\ keeps st st'.
Proof.
  revert st. induction els as [| el els IH]; intros st Hst; simpl.
  - exists st. split_and!; [done | done | apply keeps_refl].
  - destruct (extract_prices_total (get_text (node_of el))) as ([ec et] & -> & Hc & Ht).
    simpl in Hc, Ht. destruct st as [c t]. destruct Hst as [Hc0 Ht0]. simpl in Hc0, Ht0.
    cbv beta iota delta [mbind option_bind].
    assert (nonneg (if is0 c && gt0 ec then ec else c,
                    if is0 t && gt0 et then et else t)) as Hn.
    { split; simpl; [by destruct (is0 c && gt0 ec) | by destruct (is0 t && gt0 et)]. }
    assert (keeps (c, t) (if is0 c && gt0 ec then ec else c,
                          if is0 t && gt0 et then et else t)) as Hk.
    { split; simpl; intros Hz; by rewrite Hz. }
    revert Hn Hk.
    generalize (if is0 c && gt0 ec then ec else c) as c1.
    generalize (if is0 t && gt0 et then et else t) as t1.
    intros t1 c1 Hn Hk.
    destruct (gt0 c1 && gt0 t1).
    + by exists (c1, t1).
    + destruct (IH (c1, t1) Hn) as (st' & E & Hn' & Hk').
      exists st'. split_and!; [done | done | by eapply keeps_trans].
Qed.

Lemma text_prices_last (st0 : slots) (found : option slots) (text : string) :
  (exists st1, found = Some st1 /\ nonneg st1 /\ keeps st0 st1) ->
  exists st,
    (st1 ← found;
     if is0 (fst st1) && is0 (snd st1) then _extract_prices text else Some st1)
    = Some st
    /\ nonneg st /\ keeps st0 st.
Proof.
  intros (st1 & -> & H1 & K1). cbv beta iota delta [mbind option_bind].
  destruct (is0 (fst st1)) eqn:Ec, (is0 (snd st1)) eqn:Et; simpl;
    try (by exists st1).
  destruct (extract_prices_total text) as (st2 & -> & H2).
  exists st2. split_and!; [done | done |].
  destruct K1 as [Kc Kt]. split; intros Hz.
  - rewrite <- (Kc Hz) in Hz. congruence.
  - rewrite <- (Kt Hz) in Hz. congruence.
Qed.

Lemma container_prices_spec (container : elem) (text : string) :
  exists st, container_prices container text = Some st
             /\ nonneg st
             /\ keeps (_extract_prices_from_html container) st.
Proof.
  unfold container_prices. cbv zeta. apply text_prices_last.
  assert (nonneg (_extract_prices_from_html container)) as H0
    by apply plausible_nonneg, extract_prices_from_html_plausible.
  destruct (_ || _); [by apply surrounding_loop_spec |].
  eexists. split_and!; [done | done | apply keeps_refl].
Qed.

Lemma container_record_leaf (container : elem) (o : option BrokerRecommendation) :
  leaf (_extract_recommendation_from_container container) o ->
  (_extract_company_name container = EmptyString -> o = None)
  /\ (_extract_company_name container <> EmptyString ->
      exists r,
        o = Some r
        /\ company_name r = _extract_company_name container
        /\ _is_valid_company_name (company_name r) = true
        /\ recommendation r = _extract_recommendation (get_text (node_of container))
        /\ has_broker r
        /\ (0 <= target_price r)%Q
        /\ keeps (_extract_prices_from_html container)
                 (current_price r, target_price r)).
Proof.
  unfold _extract_recommendation_from_container.
  destruct (company_name_cases container) as [Hn | Hv].
  - rewrite Hn. change (eqs EmptyString EmptyString) with true. cbn [orb].
    intros H. apply leaf_ret_inv in H. by split.
  - pose proof (valid_name_length _ Hv) as [Hne _].
    pose proof Hne as He. apply eqs_false in He. rewrite He, Hv. cbn [orb negb andb].
    rewrite (verdict_not_empty _ (extract_recommendation_verdict _)).
    destruct (container_prices_spec container (get_text (node_of container)))
      as ([c t] & -> & [Hc Ht] & [Kc Kt]).
    simpl in Hc, Ht, Kc, Kt.
    intros H. split; [done |]. intros _.
    apply leaf_bind_inv in H as (c' & Hc' & H).
    apply leaf_trigger_bind_inv in H as (now & H).
    apply leaf_ret_inv in H. eexists. split; [exact H |]. simpl.
    split_and!; try done.
    + apply or_default_not_empty.
    + split; simpl; [| done]. intros Hz.
      pose proof (Kc Hz) as Ec. rewrite <- Ec in Hz. rewrite Hz in Hc'.
      cbn [andb] in Hc'. apply leaf_ret_inv in Hc'. congruence.
Qed.

(** X10 ([_extract_recommendation_from_container]).  In every environment the
    function returns a record exactly when the container gives a company name
    (no step of the price search raises).  The record has a company name that
    passes the validity check, the verdict read from the container text, a
    broker name that is not empty and a target price that is not negative; a
    price found in the markup of the container is kept, whatever the texts
    around it or the secondary lookup give; and [filter_recommendations] lets
    the record through. *)
Theorem container_record_is_well_formed {W : Type} (h : world W) (w : W)
  (container : elem) :
  let result := fst (run h (_extract_recommendation_from_container container) w) in
  (_extract_company_name container = EmptyString -> result = None)
  /\ (_extract_company_name container <> EmptyString ->
      exists r,
        result = Some r
        /\ company_name r = _extract_company_name container
        /\ _is_valid_company_name (company_name r) = true
        /\ recommendation r = _extract_recommendation (get_text (node_of container))
        /\ broker_name r <> EmptyString
        /\ (0 <= target_price r)%Q
        /\ keeps (_extract_prices_from_html container)
                 (current_price r, target_price r)
        /\ filter_recommendations [r] = [r]).
Proof.
  intros result.
  destruct (container_record_leaf container result (leaf_run h _ w)) as [H1 H2].
  split; [done |]. intros Hne.
  destruct (H2 Hne) as (r & E & Hc & Hv & Hr & Hb & Ht & Hk).
  exists r. split_and!; try done.
  apply filter_keeps_valid; [done |]. rewrite Hr. apply extract_recommendation_verdict.
Qed.

(** ** The records of the other strategies *)


Lemma text_record_leaf (text : string) (r : BrokerRecommendation) :
  leaf (_extract_from_text text) (Some r) ->
  broker_name r = "MoneyControl Research"
  /\ _is_valid_company_name (company_name r) = true.
Proof.
  unfold _extract_from_text.
  destruct (first_some _ _) as [[cn rc] |] eqn:E;
    [| intros H; by apply leaf_ret_inv in H].
  intros H. apply leaf_trigger_bind_inv in H as (now & H).
  apply leaf_ret_inv in H. injection H as ->. simpl. split; [done |].
  apply first_some_inv in E as (p & _ & E). cbv beta in E.
  apply first_some_inv in E as (mt & _ & E). unfold text_match in E.
  destruct (in_list _ _); destruct (_is_valid_company_name _) eqn:Hv;
    try done; by injection E as <- <-.
Qed.

Section JsonRecords.
Context (J : JsonLib).

Lemma json_data_leaf (data : list (string * jvalue J))
  (l : list BrokerRecommendation) :
  leaf (_extract_from_json_data J data) l ->
  (first_some (present J data)
     ["name"; "company"; "symbol"; "companyName"; "stockName"] = None -> l = [])
  /\ (l = []
      \/ exists r,
           l = [r]
           /\ broker_name r = "MoneyControl Research"
           /\ _is_valid_company_name (company_name r) = true
           /\ In (recommendation r) verdicts
           /\ (first_some (present J data) ["recommendation"; "call"; "action"] = None ->
               recommendation r = "BUY")
           /\ (first_some (present J data)
                 ["targetPrice"; "target"; "priceTarget"; "tp"] = None ->
               target_price r = 0%Q)).
Proof.
  unfold _extract_from_json_data.
  destruct (first_some (present J data) ["name"; _; _; _; _]) as [v |] eqn:En.
  - destruct (_ && _) eqn:Ev.
    + intros H. apply leaf_trigger_bind_inv in H as (now & H).
      apply leaf_ret_inv in H. split; [done |]. right.
      eexists. split; [exact H |].
      cbn [broker_name company_name recommendation target_price].
      apply andb_true_iff in Ev as [_ Ev]. split_and!; [done | done | | |].
      * destruct (first_some (present J data) ["recommendation"; _; _]);
          [apply extract_recommendation_verdict | by left].
      * by intros ->.
      * unfold first_float. intros Ht.
        assert (first_some (fun key => v0 ← present J data key; py_float J v0)
                  ["targetPrice"; "target"; "priceTarget"; "tp"] = None) as ->; [| done].
        revert Ht. simpl.
        repeat (destruct (present J data _); [done |]). done.
    + intros H. apply leaf_ret_inv in H. split; [done | by left].
  - change (eqs EmptyString EmptyString) with true. cbn [negb andb].
    intros H. apply leaf_ret_inv in H. split; [done | by left].
Qed.

(** X11 ([_extract_from_json_data]).  In every environment an embedded JSON
    object gives no record or one record.  Without a truthy value under one of
    the keys name, company, symbol, companyName and stockName it gives none.
    The record has the broker "MoneyControl Research", a company name that
    passes the validity check and a verdict among BUY, SELL and HOLD, which is
    BUY when no verdict key is present; its target price is 0.0 when no target
    key is present; and [filter_recommendations] lets it through. *)
Theorem json_object_gives_at_most_one_valid_record {W : Type} (h : world W) (w : W)
  (data : list (string * jvalue J)) :
  let result := fst (run h (_extract_from_json_data J data) w) in
  (first_some (present J data)
     ["name"; "company"; "symbol"; "companyName"; "stockName"] = None ->
   result = [])
  /\ (result = []
      \/ exists r,
           result = [r]
           /\ broker_name r = "MoneyControl Research"
           /\ _is_valid_company_name (company_name r) = true
           /\ In (recommendation r) verdicts
           /\ (first_some (present J data) ["recommendation"; "call"; "action"] = None ->
               recommendation r = "BUY")
           /\ (first_some (present J data)
                 ["targetPrice"; "target"; "priceTarget"; "tp"] = None ->
               target_price r = 0%Q)
           /\ filter_recommendations result = result).
Proof.
  intros result.
  destruct (json_data_leaf data result (leaf_run h _ w)) as [H1 H2].
  split; [done |]. destruct H2 as [H2 | (r & E & Hb & Hv & Hr & Hd & Ht)]; [by left |].
  right. exists r. split_and!; try done.
  rewrite E. by apply filter_keeps_valid.
Qed.

(** ** The parser *)










End JsonRecords.

(** ** The statistics *)






(** ** The records of the link and text strategies *)

(** X14 ([_extract_recommendation_from_context]).  In every environment the
    link strategy returns a record exactly when the link text passes the
    validity check; the record carries the cleaned link text, the verdict and
    the two prices that [_extract_prices] reads in the context text, neither
    of them negative, and a broker name that is not empty; and the clock is
    the only operation performed: this strategy never runs the secondary price
    lookup. *)
Theorem context_record_follows_the_text {W : Type} (h : world W) (w : W)
  (name context_text : string) :
  let program := _extract_recommendation_from_context name context_text in
  (_is_valid_company_name name = false ->
   fst (run h program w) = None /\ calls h program w = [])
  /\ (_is_valid_company_name name = true ->
      exists r c t,
        fst (run h program w) = Some r
        /\ calls h program w = [Call Now]
        /\ _extract_prices context_text = Some (c, t)
        /\ company_name r = _clean_company_name name
        /\ recommendation r = _extract_recommendation context_text
        /\ broker_name r <> EmptyString
        /\ current_price r = c /\ target_price r = t
        /\ (0 <= c)%Q /\ (0 <= t)%Q).
Proof.
  unfold _extract_recommendation_from_context. split; intros Hv; rewrite Hv.
  - by split.
  - cbn [negb]. rewrite (verdict_not_empty _ (extract_recommendation_verdict _)).
    destruct (extract_prices_total context_text) as ([c t] & E & Hc & Ht).
    rewrite E. unfold trigger.
    cbn [mbind io_mbind io_bind mret io_ret run calls fst snd].
    destruct (h _ Now w) as [now w']. cbn [run calls fst snd].
    eexists. exists c, t. split; [reflexivity |].
    cbn [company_name recommendation broker_name current_price target_price].
    split_and!; try done. apply or_default_not_empty.
Qed.

Lemma text_record_program (text : string) (o : option BrokerRecommendation) :
  leaf (_extract_from_text text) o ->
  match o with
  | Some r => is0 (target_price r) = true /\ is0 (current_price r) = true
  | None => True
  end.
Proof.
  unfold _extract_from_text.
  destruct (first_some _ _) as [[cn rc] |];
    [| intros H; apply leaf_ret_inv in H; by subst].
  intros H. apply leaf_trigger_bind_inv in H as (now & H).
  apply leaf_ret_inv in H. by subst.
Qed.

(** X15 ([_extract_from_text]).  A record that the text strategy returns, in
    any environment, has the broker "MoneyControl Research", a company name
    that passes the validity check, and no prices: both are 0.0. *)
Theorem text_record_has_defaults {W : Type} (h : world W) (w : W)
  (text : string) (r : BrokerRecommendation) :
  fst (run h (_extract_from_text text) w) = Some r ->
  broker_name r = "MoneyControl Research"
  /\ _is_valid_company_name (company_name r) = true
  /\ is0 (target_price r) = true
  /\ is0 (current_price r) = true.
Proof.
  intros E. pose proof (leaf_run h (_extract_from_text text) w) as H.
  rewrite E in H.
  destruct (text_record_leaf text r H) as [Hb Hv].
  pose proof (text_record_program text (Some r) H) as [Ht Hc].
  by split_and!.
Qed.

Lemma infosys_text_record :
  fst (run offline (_extract_from_text "Infosys: BUY") tt)
  = Some (mkRec "MoneyControl Research" "Infosys" "BUY" 0 0 0).
Proof. vm_compute. reflexivity. Qed.

Lemma text_record_has_defaults_witness :
  let r := mkRec "MoneyControl Research" "Infosys" "BUY" 0 0 0 in
  broker_name r = "MoneyControl Research"
  /\ _is_valid_company_name (company_name r) = true
  /\ is0 (target_price r) = true
  /\ is0 (current_price r) = true.
Proof.
  exact (text_record_has_defaults offline tt "Infosys: BUY" _ infosys_text_record).
Defined.
